(** * Hunk reconciliation for incremental reviews

    A shallow embedding of [patch-utils.js] ([hunksOverlap],
    [reconstructPatch], [filterPatchHunks]) and of the part of
    [input-processor.js] that chooses the review scope
    ([_processChangedFiles], [_excludeMergeOnlyChanges],
    [_filterChangedFiles]), followed by the properties of the
    reconciliation engine.

    Conventions of the embedding:
    - a JavaScript number that holds a line number or a line count is a
      [Z]; the arithmetic of [hunksOverlap] is exact on them;
    - a JavaScript string is a [string], read as its sequence of code
      units (all below 256 here);
    - [null] and [undefined] are [None];
    - a thrown exception or a rejected promise is [Throw e]; [await] and
      sequencing are the bind of the [result] monad;
    - [core.debug] and [core.info] only log and are left out. *)

From Stdlib Require Import ZArith String Ascii List Bool Lia.
From Stdlib Require Import DecimalString DecimalZ.
From stdpp Require Import base option list strings gmap.

Local Open Scope string_scope.
Local Open Scope Z_scope.

(** ** The JavaScript values and string methods the code relies on *)

Module JS.

(** What a call can throw. [MalformedPatch] and [FetchFailure] are the
    conditions of the error taxonomy; [TypeError] is a method call on
    [undefined]. *)
Inductive exn := MalformedPatch | FetchFailure | TypeError.

Inductive result (A : Type) : Type :=
| Ok (a : A)
| Throw (e : exn).
Arguments Ok {A} a.
Arguments Throw {A} e.

#[global] Instance result_ret : MRet result := λ A a, Ok a.
#[global] Instance result_bind : MBind result :=
  λ A B f m, match m with Ok a => f a | Throw e => Throw e end.

(** The line break of [join("\n")] and [split("\n")]. *)
Definition LF : string := String (ascii_of_nat 10) EmptyString.

(** [!s] for a value that is a string, [null] or [undefined]. *)
Definition falsy (s : option string) : bool :=
  match s with
  | None => true
  | Some EmptyString => true
  | Some (String _ _) => false
  end.

(** [s.slice(n)] *)
Fixpoint slice (n : nat) (s : string) : string :=
  match n, s with
  | O, _ => s
  | S k, EmptyString => EmptyString
  | S k, String _ s' => slice k s'
  end.

(** [s.startsWith(p)] *)
Definition startsWith (s p : string) : bool := String.prefix p s.

(** [s.split(sep)] for a separator that is a string. [splitFrom] walks
    the text; [skip] counts the characters of a separator occurrence that
    are still to be passed over. An empty separator splits the text into
    its code units. *)
Fixpoint splitFrom (sep : string) (skip : nat) (s : string) : list string :=
  match s with
  | EmptyString => [EmptyString]
  | String c s' =>
      match skip with
      | S k => splitFrom sep k s'
      | O =>
          if String.prefix sep s
          then EmptyString :: splitFrom sep (String.length sep - 1) s'
          else match splitFrom sep O s' with
               | piece :: pieces => String c piece :: pieces
               | [] => [String c EmptyString]
               end
      end
  end.

Definition split (sep s : string) : list string :=
  match sep with
  | EmptyString => map (λ c, String c EmptyString) (list_ascii_of_string s)
  | String _ _ => splitFrom sep O s
  end.

(** [l.join(sep)] on an array of strings. *)
Definition join (sep : string) (l : list string) : string := String.concat sep l.

(** [l[0]] followed by a method call: a [TypeError] on an empty array. *)
Definition first {A} (l : list A) : result A :=
  match l with
  | x :: _ => Ok x
  | [] => Throw TypeError
  end.

(** [s.replace(pat, rep)] for a pattern that is a string and a replacement
    without [$]: the first occurrence only. *)
Fixpoint replace (pat rep s : string) : string :=
  if String.prefix pat s then rep +:+ slice (String.length pat) s
  else match s with
       | EmptyString => EmptyString
       | String c s' => String c (replace pat rep s')
       end.

(** [s.replace(/c/g, rep)] for a pattern that is one character. *)
Fixpoint replaceAllChar (c : ascii) (rep : string) (s : string) : string :=
  match s with
  | EmptyString => EmptyString
  | String d s' =>
      if Ascii.eqb c d then rep +:+ replaceAllChar c rep s'
      else String d (replaceAllChar c rep s')
  end.

(** White space and line terminators among the code units below 256. *)
Definition isWhiteSpace (c : ascii) : bool :=
  let n := nat_of_ascii c in
  ((9 <=? n)%nat && (n <=? 13)%nat) || (n =? 32)%nat || (n =? 160)%nat.

Fixpoint trimStart (s : string) : string :=
  match s with
  | EmptyString => EmptyString
  | String c s' => if isWhiteSpace c then trimStart s' else s
  end.

Fixpoint trimEnd (s : string) : string :=
  match s with
  | EmptyString => EmptyString
  | String c s' =>
      match trimEnd s' with
      | EmptyString => if isWhiteSpace c then EmptyString else String c EmptyString
      | t => String c t
      end
  end.

(** [s.trim()] *)
Definition trim (s : string) : string := trimEnd (trimStart s).

(** The text of an integral number in a template literal. *)
Definition numberToString (z : Z) : string := NilZero.string_of_int (Z.to_int z).

End JS.
Export JS.

(** ** The [diff] package: hunks and [parsePatch]

    [parsePatch] is not part of the sources. It is written here after the
    parser of the package as the code calls it, without options: the text
    is cut into lines; a file section is its leading metadata, up to two
    file headers, and its hunks; a hunk is a line that starts with [@@]
    and the body lines that follow. Nothing is checked: a header that does
    not match the line-range syntax gives a hunk whose starts are not
    numbers. *)

Module Diff.

(** [StructuredPatchHunk] *)
Record Hunk := mkHunk {
  oldStart : Z;
  oldLines : Z;
  newStart : Z;
  newLines : Z;
  lines : list string
}.

(** One file section of a parsed patch; only [hunks] is read. *)
Record ParsedDiff := mkParsedDiff { hunks : list Hunk }.

(** A hunk whose starts are [NaN]: every comparison with [NaN] is false, so
    that it overlaps no hunk, survives no filter and is never written. It
    stands here as a hunk with an empty range below line 0, which overlaps
    no hunk that the parser yields either. *)
Definition nanHunk (body : list string) : Hunk := mkHunk (-1) 0 (-1) 0 body.

(** The class [\d]. *)
Definition isDigit (c : ascii) : bool :=
  let n := nat_of_ascii c in (48 <=? n)%nat && (n <=? 57)%nat.

(** The longest prefix of digits, and what follows it: [(\d+)] takes it
    whole, since a digit never follows it in the pattern. *)
Fixpoint spanDigits (s : string) : string * string :=
  match s with
  | EmptyString => (EmptyString, EmptyString)
  | String c s' =>
      if isDigit c
      then let '(ds, rest) := spanDigits s' in (String c ds, rest)
      else (EmptyString, s)
  end.

(** A literal part of the pattern. *)
Definition expect (lit s : string) : option string :=
  if String.prefix lit s then Some (slice (String.length lit) s) else None.

(** [(\d+)] and the number that unary [+] reads from it. *)
Definition number (s : string) : option (Z * string) :=
  let '(ds, rest) := spanDigits s in
  match ds with
  | EmptyString => None
  | String _ _ => u ← NilEmpty.uint_of_string ds; Some (Z.of_uint u, rest)
  end.

(** [(?:,(\d+))?]: the count, when a comma and digits follow. *)
Definition count (s : string) : option Z * string :=
  match expect "," s with
  | Some s' =>
      match number s' with
      | Some (n, rest) => (Some n, rest)
      | None => (None, s)
      end
  | None => (None, s)
  end.

(** A match of [/@@ -(\d+)(?:,(\d+))? \+(\d+)(?:,(\d+))? @@/] at the start of
    [s], with its four groups. *)
Definition headerAt (s : string) : option (Z * option Z * Z * option Z) :=
  s ← expect "@@ -" s;
  '(oStart, s) ← number s;
  let '(oLines, s) := count s in
  s ← expect " +" s;
  '(nStart, s) ← number s;
  let '(nLines, s) := count s in
  _ ← expect " @@" s;
  Some (oStart, oLines, nStart, nLines).

(** The groups of the first match in the line, as [split] returns them at
    the indices 1 to 4; [None] when the pattern matches nowhere. *)
Fixpoint chunkHeader (line : string) : option (Z * option Z * Z * option Z) :=
  match headerAt line with
  | Some groups => Some groups
  | None =>
      match line with
      | EmptyString => None
      | String _ rest => chunkHeader rest
      end
  end.

(** [uniDiff.split(/\r\n|[\n\v\f\r\x85]/)] *)
Definition isLineBreak (c : ascii) : bool :=
  let n := nat_of_ascii c in
  ((10 <=? n)%nat && (n <=? 13)%nat) || (n =? 133)%nat.

Fixpoint splitLines (s : string) : list string :=
  match s with
  | EmptyString => [EmptyString]
  | String c s' =>
      if isLineBreak c then
        match s' with
        | String d s'' =>
            if Ascii.eqb c (ascii_of_nat 13) && Ascii.eqb d (ascii_of_nat 10)
            then EmptyString :: splitLines s''
            else EmptyString :: splitLines s'
        | EmptyString => EmptyString :: splitLines s'
        end
      else match splitLines s' with
           | piece :: pieces => String c piece :: pieces
           | [] => [String c EmptyString]
           end
  end.

(** [/^p\s/] for a literal [p]. *)
Definition startsWithThenSpace (p line : string) : bool :=
  match expect p line with
  | Some (String c _) => isWhiteSpace c
  | _ => false
  end.

(** [/^(\-\-\-|\+\+\+|@@)\s/]: the metadata of a section ends here. *)
Definition endsMetadata (line : string) : bool :=
  startsWithThenSpace "---" line || startsWithThenSpace "+++" line
  || startsWithThenSpace "@@" line.

(** The pattern of [parseFileHeader]: [---] or [+++], white space, and the
    rest of the line. *)
Definition isFileHeader (line : string) : bool :=
  startsWithThenSpace "---" line || startsWithThenSpace "+++" line.

(** [/^(Index:|diff|\-\-\-|\+\+\+)\s/]: the hunks of a section end here. *)
Definition endsHunks (line : string) : bool :=
  startsWithThenSpace "Index:" line || startsWithThenSpace "diff" line
  || startsWithThenSpace "---" line || startsWithThenSpace "+++" line.

(** The operation of a body line: a space for an empty line that is not
    the last line of the text, else the first character. *)
Definition operation (line : string) (rest : list string) : option ascii :=
  match line, rest with
  | EmptyString, _ :: _ => Some " "%char
  | EmptyString, [] => None
  | String c _, _ => Some c
  end.

(** The line belongs to the body of the hunk that is open: it is not the
    [---] header of a next file, and its operation is [+], [-], a space or
    a backslash. *)
Definition isBody (line : string) (rest : list string) : bool :=
  let nextFile :=
    startsWith line "--- " &&
    match rest with
    | l1 :: l2 :: _ => startsWith l1 "+++ " && startsWith l2 "@@"
    | _ => false
    end in
  negb nextFile &&
  match operation line rest with
  | Some c => Ascii.eqb c "+" || Ascii.eqb c "-" || Ascii.eqb c " " || Ascii.eqb c "\"
  | None => false
  end.

(** A hunk while its body is read: the groups of its header, the body
    lines so far, last first, and whether a line was added or removed
    ([addCount] and [removeCount] are only tested for 0). *)
Record OpenHunk := mkOpenHunk {
  groups : option (Z * option Z * Z * option Z);
  body : list string;
  added : bool;
  removed : bool
}.

Definition openHunk (header : string) : OpenHunk :=
  mkOpenHunk (chunkHeader header) [] false false.

Definition pushLine (h : OpenHunk) (line : string) (rest : list string) : OpenHunk :=
  let op := operation line rest in
  let isOp c := match op with Some d => Ascii.eqb d c | None => false end in
  mkOpenHunk (groups h) (line :: body h)
    (added h || isOp "+"%char || isOp " "%char)
    (removed h || isOp "-"%char || isOp " "%char).

(** The hunk that [parseHunk] returns: a count that is remaining out is 1; a
    start whose count is 0 is raised by one; a count of 1 without any line
    of its side becomes 0. *)
Definition closeHunk (h : OpenHunk) : Hunk :=
  match groups h with
  | None => nanHunk (rev (body h))
  | Some (oStart, oCount, nStart, nCount) =>
      let oLines := default 1 oCount in
      let nLines := default 1 nCount in
      let oStart := if oLines =? 0 then oStart + 1 else oStart in
      let nStart := if nLines =? 0 then nStart + 1 else nStart in
      let nLines := if negb (added h) && (nLines =? 1) then 0 else nLines in
      let oLines := if negb (removed h) && (oLines =? 1) then 0 else oLines in
      mkHunk oStart oLines nStart nLines (rev (body h))
  end.

Definition closed (open : option OpenHunk) : list Hunk :=
  match open with
  | Some h => [closeHunk h]
  | None => []
  end.

(** The hunks of a file section, and the lines from the one that ends
    them: the loop of [parseIndex] over the hunks, with [parseHunk] and
    its loop over the body lines in [open]. *)
Fixpoint parseHunks (open : option OpenHunk) (ls : list string)
  : list Hunk * list string :=
  match ls with
  | [] => (closed open, [])
  | line :: rest =>
      let inBody :=
        match open with
        | Some h => isBody line rest
        | None => false
        end in
      match open, inBody with
      | Some h, true => parseHunks (Some (pushLine h line rest)) rest
      | _, _ =>
          if endsHunks line then (closed open, ls)
          else
            let '(hs, remaining) :=
              if String.prefix "@@" line
              then parseHunks (Some (openHunk line)) rest
              else parseHunks None rest in
            ((closed open ++ hs)%list, remaining)
      end
  end.

(** The metadata of a section is passed over. *)
Fixpoint skipMetadata (ls : list string) : list string :=
  match ls with
  | [] => []
  | line :: rest => if endsMetadata line then ls else skipMetadata rest
  end.

(** [parseFileHeader]: a file header is consumed, anything else is not. *)
Definition parseFileHeader (ls : list string) : list string :=
  match ls with
  | line :: rest => if isFileHeader line then rest else ls
  | [] => []
  end.

(** [parseIndex]: one file section, and the lines after it. *)
Definition parseIndex (ls : list string) : ParsedDiff * list string :=
  let '(hs, remaining) :=
    parseHunks None (parseFileHeader (parseFileHeader (skipMetadata ls))) in
  (mkParsedDiff hs, remaining).

(** [while (i < diffstr.length) parseIndex()]: every section takes at least
    one line, so that as many rounds as there are lines are enough. *)
Fixpoint parseIndexes (rounds : nat) (ls : list string) : list ParsedDiff :=
  match rounds, ls with
  | O, _ => []
  | _, [] => []
  | S k, _ :: _ => let '(section, remaining) := parseIndex ls in section :: parseIndexes k remaining
  end.

(** [parsePatch(uniDiff)]; [split] on [null] or [undefined] is a
    [TypeError]. *)
Definition parsePatch (uniDiff : option string) : result (list ParsedDiff) :=
  match uniDiff with
  | None => Throw TypeError
  | Some text =>
      let diffstr := splitLines text in
      Ok (parseIndexes (length diffstr) diffstr)
  end.

End Diff.
Export Diff.

(** ** [patch-utils.js] *)

Module PatchUtils.

(** [hunksOverlap(hunk1, hunk2)] *)
Definition hunksOverlap (hunk1 hunk2 : Hunk) : bool :=
  let h1Start := newStart hunk1 in
  let h1End := newStart hunk1 + newLines hunk1 - 1 in
  let h2Start := newStart hunk2 in
  let h2End := newStart hunk2 + newLines hunk2 - 1 in
  (h1Start <=? h2End) && (h2Start <=? h1End).

(** The header that [reconstructPatch] writes for a hunk. *)
Definition header (hunk : Hunk) : string :=
  "@@ -" +:+ numberToString (oldStart hunk) +:+ "," +:+ numberToString (oldLines hunk)
  +:+ " +" +:+ numberToString (newStart hunk) +:+ "," +:+ numberToString (newLines hunk)
  +:+ " @@".

(** [reconstructPatch(hunks)] *)
Definition reconstructPatch (hunks : list Hunk) : string :=
  join LF (map (λ hunk, join LF (header hunk :: lines hunk)) hunks).

Section WithParser.

(** [parsePatch] is imported from the [diff] package. *)
Variable parsePatch : option string → result (list ParsedDiff).

(** [filterPatchHunks(incrementalPatch, wholePRPatch)] *)
Definition filterPatchHunks (incrementalPatch wholePRPatch : option string)
  : result (option string) :=
  if falsy incrementalPatch then Ok None
  else
    incrementalPatches ← parsePatch incrementalPatch;
    wholePRPatches ← parsePatch wholePRPatch;
    match incrementalPatches with
    | [] => Ok incrementalPatch
    | {| hunks := [] |} :: _ => Ok incrementalPatch
    | {| hunks := (_ :: _) as incrementalHunks |} :: _ =>
        match wholePRPatches with
        | [] => Ok None
        | {| hunks := [] |} :: _ => Ok None
        | {| hunks := (_ :: _) as wholePRHunks |} :: _ =>
            let filteredHunks :=
              List.filter
                (λ incHunk, existsb (λ prHunk, hunksOverlap incHunk prHunk) wholePRHunks)
                incrementalHunks in
            if (length filteredHunks =? 0)%nat then Ok None
            else Ok (Some (reconstructPatch filteredHunks))
        end
    end.

End WithParser.

End PatchUtils.
Export PatchUtils.

(** ** [input-processor.js] *)

Module InputProcessor.

(** An entry of a change set; the callers read [filename] and [patch]. *)
Record File := mkFile {
  filename : string;
  patch : option string
}.

(** A comment of the pull request. *)
Record Comment := mkComment { body : option string }.

(** The fields of [InputProcessor] that [_processChangedFiles] reads and
    writes. *)
Record InputProcessor := mkInputProcessor {
  _baseCommit : string;
  _headCommit : string;
  _includeExtensions : string;
  _excludeExtensions : string;
  _includePaths : string;
  _excludePaths : string;
  _filteredDiffs : list File
}.

(** [this._filteredDiffs = diffs] *)
Definition set_filteredDiffs (this : InputProcessor) (diffs : list File) : InputProcessor :=
  {| _baseCommit := _baseCommit this;
     _headCommit := _headCommit this;
     _includeExtensions := _includeExtensions this;
     _excludeExtensions := _excludeExtensions this;
     _includePaths := _includePaths this;
     _excludePaths := _excludePaths this;
     _filteredDiffs := diffs |}.

Section WithEnvironment.

(** The constants of [constants.js]. *)
Variables AI_REVIEW_COMMENT_PREFIX SUMMARY_SEPARATOR : string.

(** [parsePatch] of the [diff] package and [path.posix.extname]. *)
Variable parsePatch : option string → result (list ParsedDiff).
Variable extname : string → string.

(** The two calls of the GitHub client, for the owner, repository and
    pull request of the run. *)
Variable listPRComments : result (list Comment).
Variable getFilesBetweenCommits : string → string → result (list File).

(** The callback of [find] in [_processChangedFiles]:
    [c.body && c.body.startsWith(AI_REVIEW_COMMENT_PREFIX)]. *)
Definition isReviewComment (c : Comment) : bool :=
  match body c with
  | None => false
  | Some b => negb (falsy (Some b)) && startsWith b AI_REVIEW_COMMENT_PREFIX
  end.

(** [lastReviewComment]: [[...comments].reverse().find(...)]. *)
Definition lastReviewComment (comments : list Comment) : option Comment :=
  List.find isReviewComment (rev comments).

(** [newBaseCommit], from the body of the last review comment. *)
Definition newBaseCommit (b : string) : result string :=
  beforeSeparator ← first (split SUMMARY_SEPARATOR b);
  token ← first (split " " (replace AI_REVIEW_COMMENT_PREFIX "" beforeSeparator));
  mret (trim token).

(** [incrementalBaseCommit] once the comments have been read. *)
Definition incrementalBaseCommit (originalPRBase : string) (comments : list Comment)
  : result string :=
  match lastReviewComment comments with
  | Some c =>
      match body c with
      | Some b =>
          token ← newBaseCommit b;
          if falsy (Some token) then mret originalPRBase else mret token
      | None => Throw TypeError
      end
  | None => mret originalPRBase
  end.

(** The callback of [changedFiles.map] in [_excludeMergeOnlyChanges]. *)
Definition filteredFile (wholePRFileMap : gmap string File) (incFile : File)
  : result (option File) :=
  match wholePRFileMap !! filename incFile with
  | None => mret None
  | Some prFile =>
      filteredPatch ← filterPatchHunks parsePatch (patch incFile) (patch prFile);
      if falsy filteredPatch then mret None
      else mret (Some {| filename := filename incFile; patch := filteredPatch |})
  end.

(** [new Map(wholePRFiles.map((f) => [f.filename, f]))]: a later entry
    replaces an earlier one of the same name. *)
Definition wholePRFileMap (wholePRFiles : list File) : gmap string File :=
  foldl (λ m f, <[filename f := f]> m) ∅ wholePRFiles.

(** [_excludeMergeOnlyChanges(changedFiles, originalPRBase)] *)
Definition _excludeMergeOnlyChanges (this : InputProcessor)
    (changedFiles : list File) (originalPRBase : string) : result (list File) :=
  wholePRFiles ← getFilesBetweenCommits originalPRBase (_headCommit this);
  mapped ← mapM (filteredFile (wholePRFileMap wholePRFiles)) changedFiles;
  mret (omap id mapped).

(** [toArray] of [_filterChangedFiles]. *)
Definition toArray (str : string) : list string :=
  if falsy (Some str) then []
  else List.filter (λ s, negb (falsy (Some s))) (map trim (split "," str)).

Definition includes (l : list string) (s : string) : bool :=
  existsb (String.eqb s) l.

(** [shouldReview] of [_filterChangedFiles]. *)
Definition shouldReview (incExt excExt incPath excPath : list string) (file : File) : bool :=
  let filePath := replaceAllChar "\" "/" (filename file) in
  let ext := extname filePath in
  let extAllowed := (length incExt =? 0)%nat || includes incExt ext in
  let extExcluded := includes excExt ext in
  let inAllowedPath :=
    (length incPath =? 0)%nat || existsb (λ p, startsWith filePath p) incPath in
  let inExcludedPath := existsb (λ p, startsWith filePath p) excPath in
  extAllowed && negb extExcluded && inAllowedPath && negb inExcludedPath.

(** [_filterChangedFiles(changedFiles, includeExtensions, excludeExtensions,
    includePaths, excludePaths)] *)
Definition _filterChangedFiles (changedFiles : list File)
    (includeExtensions excludeExtensions includePaths excludePaths : string) : list File :=
  let incExt := toArray includeExtensions in
  let excExt := toArray excludeExtensions in
  let incPath := toArray includePaths in
  let excPath := toArray excludePaths in
  List.filter (shouldReview incExt excExt incPath excPath) changedFiles.

(** [_processChangedFiles()]: the processor with its new
    [_filteredDiffs]. *)
Definition _processChangedFiles (this : InputProcessor) : result InputProcessor :=
  let originalPRBase := _baseCommit this in
  comments ← listPRComments;
  base ← incrementalBaseCommit originalPRBase comments;
  fetched ← getFilesBetweenCommits base (_headCommit this);
  changedFiles ←
    (if negb (String.eqb base originalPRBase)
     then _excludeMergeOnlyChanges this fetched originalPRBase
     else mret fetched);
  mret (set_filteredDiffs this
          (_filterChangedFiles changedFiles
             (_includeExtensions this) (_excludeExtensions this)
             (_includePaths this) (_excludePaths this))).

End WithEnvironment.

End InputProcessor.
Export InputProcessor.

(** ** The words of the specification *)

(** The new-file range of [b], from [newStart] to
    [newStart + newLines - 1], includes the line [p]. *)
Definition rangeIncludes (b : Hunk) (p : Z) : Prop :=
  newStart b ≤ p ≤ newStart b + newLines b - 1.

(** The first file section of a parsed patch has no hunk, or there is no
    file section at all. *)
Definition zeroHunks (patches : list ParsedDiff) : Prop :=
  match patches with
  | [] => True
  | p :: _ => hunks p = []
  end.

(** The incremental hunks that overlap at least one reference hunk. *)
Definition overlapping (reference incremental : list Hunk) : list Hunk :=
  filter (λ incHunk, Exists (λ refHunk, hunksOverlap incHunk refHunk) reference)
    incremental.

(** What [filterPatchHunks] returns for a list of surviving hunks. *)
Definition reconciled (survivors : list Hunk) : option string :=
  match survivors with
  | [] => None
  | _ :: _ => Some (reconstructPatch survivors)
  end.


(** ** A run to evaluate the definitions on *)

Module Scenario.

Definition samplePrefix : string := "AI review done up to commit: ".
Definition sampleSeparator : string := "### Summary".

(** Every file of the examples is a JavaScript file. *)
Definition sampleExtname (_ : string) : string := ".js".

Definition text (ls : list string) : string := join LF ls.

(** The hunks [10-15], [50-55] and [100-105] of [utils.js] since the last
    review, and the hunks [20-25] and [50-55] of the whole pull request. *)
Definition incrementalText : string :=
  text ["@@ -10,6 +10,6 @@"; "-log(a)"; "+log(b)";
        "@@ -50,6 +50,6 @@"; "-fix(c)"; "+fix(d)";
        "@@ -100,6 +100,6 @@"; "-old(e)"; "+new(f)"].
Definition wholePRText : string :=
  text ["@@ -20,6 +20,6 @@"; "+feature(x)";
        "@@ -50,6 +50,6 @@"; "-fix(c)"; "+fix(d)"].
Definition survivingText : string :=
  text ["@@ -50,6 +50,6 @@"; "-fix(c)"; "+fix(d)"].

Definition deletionAt5 : Hunk := mkHunk 5 2 5 0 ["-x"; "-y"].
Definition threeLinesAt5 : Hunk := mkHunk 5 3 5 3 ["-a"; "+b"; " c"; " d"].
Definition threeLinesAt3 : Hunk := mkHunk 3 3 3 3 [" a"; "-b"; "+c"; " d"].

Definition noHunkText : string := "Binary files differ".

Definition utils : File := mkFile "utils.js" (Some incrementalText).
Definition utilsWholePR : File := mkFile "utils.js" (Some wholePRText).
Definition brokenWholePR : File := mkFile "broken.js" (Some wholePRText).
Definition emptied : File := mkFile "emptied.js" (Some "").
Definition binary : File := mkFile "logo.js" None.
Definition emptiedWholePR : File := mkFile "emptied.js" (Some wholePRText).
Definition binaryWholePR : File := mkFile "logo.js" None.
Definition legacy : File := mkFile "legacy.js" (Some incrementalText).

(** The pull request starts at commit [base0] and is at [head9]; the last
    review was made at [abc123]. *)
Definition processor : InputProcessor :=
  mkInputProcessor "base0" "head9" "" "" "" "" [].

Definition reviewed : list Comment :=
  [mkComment (Some "Looks good to me");
   mkComment (Some (samplePrefix +:+ "abc123 " +:+ sampleSeparator +:+ " two files"));
   mkComment None].

(** The last review comment is the prefix alone. *)
Definition prefixOnly : list Comment :=
  [mkComment (Some (samplePrefix +:+ "abc123 " +:+ sampleSeparator));
   mkComment (Some samplePrefix)].

Definition wholePR : list File :=
  [utilsWholePR; brokenWholePR; emptiedWholePR; binaryWholePR].

(** A host whose change set since the last review is [incremental]. *)
Definition host (incremental : list File) (base head : string) : result (list File) :=
  if String.eqb base "base0" then Ok wholePR else Ok incremental.

End Scenario.

(** ** The sanitizers of [input-processor.js] *)

Module Sanitizers.

(** [s.slice(0, n)] *)
Fixpoint sliceTo (n : nat) (s : string) : string :=
  match n, s with
  | O, _ => EmptyString
  | S k, EmptyString => EmptyString
  | S k, String c s' => String c (sliceTo k s')
  end.

(** The class [[\u0000-\u001F\u007F]]. *)
Definition isControl (c : ascii) : bool :=
  let n := nat_of_ascii c in (n <=? 31)%nat || (n =? 127)%nat.

(** The class of [sanitizePath]: the characters [<], [>], [:], the double
    quote, [|], [?] and [*], and the code units up to [0x1F]. *)
Definition isUnsafeInPath (c : ascii) : bool :=
  let n := nat_of_ascii c in
  (n <=? 31)%nat || (n =? 60)%nat || (n =? 62)%nat || (n =? 58)%nat || (n =? 34)%nat
  || (n =? 124)%nat || (n =? 63)%nat || (n =? 42)%nat.

(** [s.replace(/[class]/g, rep)] for a class of single characters. *)
Fixpoint replaceClass (class : ascii → bool) (rep : string) (s : string) : string :=
  match s with
  | EmptyString => EmptyString
  | String c s' =>
      if class c then rep +:+ replaceClass class rep s'
      else String c (replaceClass class rep s')
  end.

(** [s.replace(/^(\.\.(\/|\\|$))+/, "")]: the leading run of [..] segments,
    each closed by a slash, a backslash or the end of the text. *)
Fixpoint stripParents (s : string) : string :=
  match s with
  | String c1 (String c2 rest) =>
      if Ascii.eqb c1 "." && Ascii.eqb c2 "." then
        match rest with
        | EmptyString => EmptyString
        | String c3 rest' =>
            if Ascii.eqb c3 "/" || Ascii.eqb c3 "\" then stripParents rest' else s
        end
      else s
  | _ => s
  end.

Section WithLibraries.

(** [he.encode(str, { useNamedReferences: true })], [shellQuote] of
    [shell-quote] and [path.posix.normalize]. *)
Variable heEncode : string → string.
Variable shellQuote : list string → string.
Variable normalize : string → string.

(** [sanitizeString(value, { maxLen, context })] for a value that is a
    string, [null] or [undefined]. *)
Definition sanitizeString (value : option string) (maxLen : nat) (context : string)
  : string :=
  match value with
  | None => EmptyString
  | Some v =>
      let str := sliceTo maxLen (trim v) in
      if String.eqb context "html" then heEncode str
      else if String.eqb context "shell" then shellQuote [str]
      else replaceClass isControl EmptyString str
  end.

(** [sanitizePath(value)] for a value that is a string, [null] or
    [undefined]. *)
Definition sanitizePath (value : option string) : string :=
  match value with
  | None => EmptyString
  | Some v =>
      let str := trim v in
      if falsy (Some str) then EmptyString
      else
        let safe := replaceClass isUnsafeInPath "_" str in
        let normalized := stripParents (normalize safe) in
        if String.eqb normalized "." then EmptyString else normalized
  end.

End WithLibraries.

End Sanitizers.
Export Sanitizers.

(** ** The validation of the inputs and the choice of the agent *)

Module Validation.

(** [throw new Error(message)], or a returned value. *)
Inductive outcome (A : Type) : Type :=
| Returns (a : A)
| ThrowsError (message : string).
Arguments Returns {A} a.
Arguments ThrowsError {A} message.

(** The fields of [InputProcessor] that [_validateInputs] and [getAIAgent]
    read. *)
Record Inputs := mkInputs {
  _repo : string;
  _owner : string;
  _pullNumber : Z;
  _githubToken : string;
  _aiProvider : string;
  _apiKey : string;
  _model : string;
  _reviewRulesContent : option string
}.

(** The class of the agent that [getAIAgent] constructs. *)
Inductive AgentClass :=
| OpenAIAgent | AnthropicAgent | GoogleAgent | DeepseekAgent | XAgent | PerplexityAgent.

(** An agent with the arguments of its constructor that are data. *)
Record Agent := mkAgent {
  agentClass : AgentClass;
  agentApiKey : string;
  agentModel : string;
  agentReviewRules : option string
}.

Definition supportedProviders : list string :=
  ["openai"; "anthropic"; "google"; "deepseek"; "x"; "perplexity"].

(** [_validateInputs()] *)
Definition _validateInputs (this : Inputs) : outcome unit :=
  if falsy (Some (_repo this)) then ThrowsError "Repository name is required."
  else if falsy (Some (_owner this)) then ThrowsError "Owner name is required."
  else if (_pullNumber this =? 0) then
    ThrowsError "Pull request number must be a valid number."
  else if falsy (Some (_githubToken this)) then ThrowsError "GitHub token is required."
  else if falsy (Some (_aiProvider this)) then ThrowsError "AI provider is required."
  else if falsy (Some (_apiKey this)) then
    ThrowsError (_aiProvider this +:+ " API key is required.")
  else if negb (includes supportedProviders (_aiProvider this)) then
    ThrowsError ("Unsupported AI provider: " +:+ _aiProvider this
                 +:+ ". Supported providers: " +:+ join ", " supportedProviders)
  else Returns tt.

(** [getAIAgent()] *)
Definition getAIAgent (this : Inputs) : outcome Agent :=
  let construct class :=
    Returns (mkAgent class (_apiKey this) (_model this) (_reviewRulesContent this)) in
  if String.eqb (_aiProvider this) "openai" then construct OpenAIAgent
  else if String.eqb (_aiProvider this) "anthropic" then construct AnthropicAgent
  else if String.eqb (_aiProvider this) "google" then construct GoogleAgent
  else if String.eqb (_aiProvider this) "deepseek" then construct DeepseekAgent
  else if String.eqb (_aiProvider this) "x" then construct XAgent
  else if String.eqb (_aiProvider this) "perplexity" then construct PerplexityAgent
  else ThrowsError ("Unsupported AI provider: " +:+ _aiProvider this).

End Validation.
Export Validation.

(** ** More words for the properties *)

(** A text without the character [c]. *)
Fixpoint without (c : ascii) (s : string) : bool :=
  match s with
  | EmptyString => true
  | String d s' => negb (Ascii.eqb d c) && without c s'
  end.

(** A text without any character of a class. *)
Fixpoint withoutClass (class : ascii → bool) (s : string) : bool :=
  match s with
  | EmptyString => true
  | String d s' => negb (class d) && withoutClass class s'
  end.

(** The first and the last character of a text are no white space. *)
Definition startsBlank (s : string) : bool :=
  match s with
  | EmptyString => false
  | String c _ => isWhiteSpace c
  end.

Fixpoint endsBlank (s : string) : bool :=
  match s with
  | EmptyString => false
  | String c EmptyString => isWhiteSpace c
  | String _ s' => endsBlank s'
  end.

(** The text opens with a [..] segment, or is one. *)
Definition climbs (s : string) : Prop :=
  startsWith s "../" = true ∨ startsWith s "..\" = true ∨ s = "..".

(** What holds of a file kept from a list of changed files: its patch is
    not empty, and is what [filterPatchHunks] returned for a changed file
    of that name and its entry in the map. *)
Definition keptFrom (parsePatch : option string → result (list ParsedDiff))
    (map : gmap string File) (changedFiles : list File) (kept : File) : Prop :=
  falsy (patch kept) = false ∧
  ∃ incFile prFile,
    incFile ∈ changedFiles ∧ filename incFile = filename kept ∧
    map !! filename kept = Some prFile ∧
    filterPatchHunks parsePatch (patch incFile) (patch prFile) = Ok (patch kept).

(** The new start that an open hunk has read from its header, if any, is a
    natural number. *)
Definition naturalStart (h : OpenHunk) : Prop :=
  match groups h with
  | Some (_, _, nStart, _) => 0 ≤ nStart
  | None => True
  end.

(** More files and comments to evaluate the definitions on. *)
Module Samples.

Definition windowsFile : File := mkFile "src\lib\utils.js" (Some Scenario.incrementalText).

Definition validInputs : Inputs :=
  mkInputs "ai-code-review" "octo" 7 "token" "anthropic" "key" "model" None.

Definition twoReviews : list Comment :=
  [mkComment (Some (Scenario.samplePrefix +:+ "abc123 " +:+ Scenario.sampleSeparator));
   mkComment (Some "thanks");
   mkComment (Some (Scenario.samplePrefix +:+ "def456 " +:+ Scenario.sampleSeparator));
   mkComment None].

(** The patch of an added file, and a hunk that only removes lines, as the
    host writes them. *)
Definition addedFileText : string :=
  Scenario.text ["@@ -0,0 +1,3 @@"; "+a"; "+b"; "+c"].
Definition removalText : string :=
  Scenario.text ["@@ -5,2 +4,0 @@"; "-x"; "-y"].


(** A normalization for the examples: the text as it is. *)
Definition sampleNormalize (s : string) : string := s.

End Samples.

(** * Properties *)

(** ** The overlap predicate *)

Section Overlap.

Implicit Types a b : Hunk.

Lemma hunksOverlap_iff a b :
  hunksOverlap a b = true ↔
  newStart a ≤ newStart b + newLines b - 1 ∧ newStart b ≤ newStart a + newLines a - 1.
Proof.
  unfold hunksOverlap; cbn.
  rewrite andb_true_iff, !Z.leb_le. reflexivity.
Qed.

(** C5: two hunks overlap exactly when [aStart <= bEnd] and
    [bStart <= aEnd], with [aEnd = a.newStart + a.newLines - 1] and the
    same for [b]; only the new-file ranges are read, and a hunk with
    [newLines = 0] goes through the same inequality. *)
Theorem hunksOverlap_closed_interval
    (aOldStart aOldLines aStart aLines : Z) (aBody : list string)
    (bOldStart bOldLines bStart bLines : Z) (bBody : list string) :
  let aEnd := aStart + aLines - 1 in
  let bEnd := bStart + bLines - 1 in
  hunksOverlap (mkHunk aOldStart aOldLines aStart aLines aBody)
               (mkHunk bOldStart bOldLines bStart bLines bBody) = true
  ↔ aStart ≤ bEnd ∧ bStart ≤ aEnd.
Proof. intros aEnd bEnd. apply hunksOverlap_iff. Qed.

(** C9: the overlap predicate is symmetric. *)
Theorem hunksOverlap_symmetric a b : hunksOverlap a b = hunksOverlap b a.
Proof. unfold hunksOverlap; cbn. apply andb_comm. Qed.

(** C4, amended: a hunk with [newLines >= 1] overlaps itself; a hunk [a]
    with [newLines = 0] overlaps [b] exactly when the new-file range of [b]
    includes the line [a.newStart] and starts before it. *)
Theorem hunksOverlap_reflexive_or_boundary a b :
  (1 ≤ newLines a → hunksOverlap a a = true) ∧
  (newLines a = 0 →
   hunksOverlap a b = true ↔ rangeIncludes b (newStart a) ∧ newStart b < newStart a).
Proof.
  split.
  - intros Hpos. apply hunksOverlap_iff. lia.
  - intros Hzero. rewrite hunksOverlap_iff. unfold rangeIncludes. lia.
Qed.

Lemma hunksOverlap_reflexive_or_boundary_witness :
  hunksOverlap Scenario.threeLinesAt5 Scenario.threeLinesAt5 = true ∧
  (hunksOverlap Scenario.deletionAt5 Scenario.threeLinesAt3 = true ↔
   rangeIncludes Scenario.threeLinesAt3 5 ∧ 3 < 5).
Proof.
  split.
  - apply (proj1 (hunksOverlap_reflexive_or_boundary
                    Scenario.threeLinesAt5 Scenario.threeLinesAt5)).
    simpl. lia.
  - apply (proj2 (hunksOverlap_reflexive_or_boundary
                    Scenario.deletionAt5 Scenario.threeLinesAt3)).
    reflexivity.
Defined.

(** C4 as stated fails: the range [5-7] includes line 5, and the deletion
    at line 5 does not overlap it. *)
Lemma hunksOverlap_boundary_counterexample :
  newLines Scenario.deletionAt5 = 0 ∧
  rangeIncludes Scenario.threeLinesAt5 (newStart Scenario.deletionAt5) ∧
  hunksOverlap Scenario.deletionAt5 Scenario.threeLinesAt5 = false.
Proof. unfold rangeIncludes. cbn. repeat split; lia. Qed.

End Overlap.

(** ** The reconciler *)

Section Reconciler.

Variable parsePatch : option string → result (list ParsedDiff).

Implicit Types incrementalPatch wholePRPatch : option string.
Implicit Types wholePRFileMap : gmap string File.

Lemma existsb_Exists {A} (f : A → bool) (l : list A) :
  existsb f l = true ↔ Exists (λ x, f x) l.
Proof.
  rewrite existsb_exists, Exists_exists.
  split; intros (x & Hin & Hx); exists x.
  - split; [by apply list_elem_of_In | by apply Is_true_true].
  - split; [by apply list_elem_of_In | by apply Is_true_true].
Qed.

Lemma filter_overlapping (reference incremental : list Hunk) :
  List.filter
    (λ incHunk, existsb (λ prHunk, hunksOverlap incHunk prHunk) reference)
    incremental
  = overlapping reference incremental.
Proof.
  unfold overlapping.
  induction incremental as [|h hs IH]; [done|].
  cbn [List.filter]. rewrite filter_cons, IH.
  destruct (existsb _ reference) eqn:Hex.
  - apply (proj1 (existsb_Exists _ _)) in Hex. by rewrite decide_True.
  - rewrite decide_False; [done|].
    intros HE. apply (proj2 (existsb_Exists _ _)) in HE.
    pose proof (eq_trans (eq_sym HE) Hex). discriminate.
Qed.

Lemma overlapping_elem_of (reference incremental : list Hunk) (h : Hunk) :
  h ∈ overlapping reference incremental ↔
  h ∈ incremental ∧ ∃ r, r ∈ reference ∧ hunksOverlap h r = true.
Proof.
  unfold overlapping. rewrite list_elem_of_filter, Exists_exists.
  split.
  - intros [(r & Hr & Ho) Hin]. split; [done|]. exists r. split; [done|].
    by apply Is_true_true.
  - intros [Hin (r & Hr & Ho)]. split; [|done]. exists r. split; [done|].
    by apply Is_true_true.
Qed.

Lemma overlapping_nil (reference incremental : list Hunk) :
  (∀ h r, h ∈ incremental → r ∈ reference → hunksOverlap h r = false) →
  overlapping reference incremental = [].
Proof.
  intros Hnone.
  destruct (overlapping reference incremental) as [|h hs] eqn:Heq; [done|].
  assert (Hin : h ∈ overlapping reference incremental) by (rewrite Heq; left).
  apply overlapping_elem_of in Hin as [Hin (r & Hr & Ho)].
  rewrite (Hnone h r Hin Hr) in Ho. discriminate.
Qed.

(** The result of [filterPatchHunks] once both texts have been parsed. *)
Lemma filterPatchHunks_parsed incrementalPatch wholePRPatch p ps q qs :
  falsy incrementalPatch = false →
  parsePatch incrementalPatch = Ok (p :: ps) → hunks p ≠ [] →
  parsePatch wholePRPatch = Ok (q :: qs) → hunks q ≠ [] →
  filterPatchHunks parsePatch incrementalPatch wholePRPatch
  = Ok (reconciled (overlapping (hunks q) (hunks p))).
Proof.
  intros Hfalsy Hinc Hp Href Hq.
  unfold filterPatchHunks. rewrite Hfalsy, Hinc, Href. cbn.
  destruct p as [[|ph pt]]; [done|].
  destruct q as [[|qh qt]]; [done|].
  cbn [hunks]. rewrite filter_overlapping.
  by destruct (overlapping (qh :: qt) (ph :: pt)).
Qed.

Lemma filterPatchHunks_falsy incrementalPatch wholePRPatch :
  falsy incrementalPatch = true →
  filterPatchHunks parsePatch incrementalPatch wholePRPatch = Ok None.
Proof. intros Hfalsy. unfold filterPatchHunks. by rewrite Hfalsy. Qed.

Lemma filterPatchHunks_no_hunks incrementalPatch wholePRPatch patches reference :
  falsy incrementalPatch = false →
  parsePatch incrementalPatch = Ok patches → zeroHunks patches →
  parsePatch wholePRPatch = Ok reference →
  filterPatchHunks parsePatch incrementalPatch wholePRPatch = Ok incrementalPatch.
Proof.
  intros Hfalsy Hinc Hzero Href.
  unfold filterPatchHunks. rewrite Hfalsy, Hinc, Href. cbn.
  destruct patches as [|[hs] ps]; [done|].
  cbn in Hzero. by subst hs.
Qed.

Lemma filterPatchHunks_no_reference incrementalPatch wholePRPatch patches reference :
  parsePatch incrementalPatch = Ok patches →
  parsePatch wholePRPatch = Ok reference → zeroHunks reference →
  ¬ zeroHunks patches →
  filterPatchHunks parsePatch incrementalPatch wholePRPatch = Ok None.
Proof.
  intros Hinc Href Hzero Hsome.
  unfold filterPatchHunks.
  destruct (falsy incrementalPatch); [done|].
  rewrite Hinc, Href. cbn.
  destruct patches as [|[[|ph pt]] ps]; [by destruct Hsome..|].
  destruct reference as [|[hs] qs]; [done|].
  cbn in Hzero. by subst hs.
Qed.

Lemma overlapping_sublist (reference incremental : list Hunk) :
  overlapping reference incremental `sublist_of` incremental.
Proof. apply sublist_filter. Qed.

Lemma filteredFile_absent wholePRFileMap incFile :
  wholePRFileMap !! filename incFile = None →
  filteredFile parsePatch wholePRFileMap incFile = Ok None.
Proof. intros Hnone. unfold filteredFile. by rewrite Hnone. Qed.

Lemma filteredFile_present wholePRFileMap incFile prFile :
  wholePRFileMap !! filename incFile = Some prFile →
  filteredFile parsePatch wholePRFileMap incFile
  = (filteredPatch ← filterPatchHunks parsePatch (patch incFile) (patch prFile);
     if falsy filteredPatch then mret None
     else mret (Some (mkFile (filename incFile) filteredPatch))).
Proof. intros Hsome. unfold filteredFile. by rewrite Hsome. Qed.

(** C1, amended: for an incremental patch that is empty or null
    [filterPatchHunks] returns null without parsing, and the file is
    excluded; the incremental patch is returned unchanged, and the file
    retained with it, when it is a non-empty text that parses to zero
    hunks and the reference patch parses. *)
Theorem filterPatchHunks_empty_incremental
    incrementalPatch wholePRPatch wholePRFileMap incFile :
  patch incFile = incrementalPatch →
  (falsy incrementalPatch = true →
   filterPatchHunks parsePatch incrementalPatch wholePRPatch = Ok None ∧
   filteredFile parsePatch wholePRFileMap incFile = Ok None) ∧
  (falsy incrementalPatch = false →
   ∀ patches reference prFile,
     parsePatch incrementalPatch = Ok patches → zeroHunks patches →
     parsePatch wholePRPatch = Ok reference →
     wholePRFileMap !! filename incFile = Some prFile →
     patch prFile = wholePRPatch →
     filterPatchHunks parsePatch incrementalPatch wholePRPatch = Ok incrementalPatch ∧
     filteredFile parsePatch wholePRFileMap incFile = Ok (Some incFile)).
Proof.
  intros Hpatch. split.
  - intros Hfalsy. split; [by apply filterPatchHunks_falsy|].
    destruct (wholePRFileMap !! filename incFile) as [prFile|] eqn:Hlook.
    + rewrite (filteredFile_present _ _ _ Hlook), Hpatch.
      by rewrite filterPatchHunks_falsy.
    + by apply filteredFile_absent.
  - intros Hfalsy patches reference prFile Hinc Hzero Href Hlook Hpr.
    pose proof (filterPatchHunks_no_hunks _ _ _ _ Hfalsy Hinc Hzero Href) as Hres.
    split; [done|].
    rewrite (filteredFile_present _ _ _ Hlook), Hpatch, Hpr, Hres. cbn.
    rewrite Hfalsy. subst incrementalPatch. by destruct incFile.
Qed.

(** C3: when both patches parse to at least one hunk, the result is the
    text of exactly the incremental hunks that overlap some reference hunk,
    every one of them and in the order of the incremental patch, and null
    when there is none. The parser yields no hunk for a null or empty
    text. *)
Theorem filterPatchHunks_keeps_overlapping
    incrementalPatch wholePRPatch p ps q qs :
  (∀ text patches,
     falsy text = true → parsePatch text = Ok patches → zeroHunks patches) →
  parsePatch incrementalPatch = Ok (p :: ps) → hunks p ≠ [] →
  parsePatch wholePRPatch = Ok (q :: qs) → hunks q ≠ [] →
  let survivors := overlapping (hunks q) (hunks p) in
  filterPatchHunks parsePatch incrementalPatch wholePRPatch = Ok (reconciled survivors) ∧
  survivors `sublist_of` hunks p ∧
  (∀ h, h ∈ survivors ↔ h ∈ hunks p ∧ ∃ r, r ∈ hunks q ∧ hunksOverlap h r = true) ∧
  ((∀ h r, h ∈ hunks p → r ∈ hunks q → hunksOverlap h r = false) →
   filterPatchHunks parsePatch incrementalPatch wholePRPatch = Ok None).
Proof.
  intros Hempty Hinc Hp Href Hq survivors.
  assert (Hfalsy : falsy incrementalPatch = false).
  { destruct (falsy incrementalPatch) eqn:Hf; [|done].
    destruct Hp. exact (Hempty _ _ Hf Hinc). }
  pose proof (filterPatchHunks_parsed _ _ _ _ _ _ Hfalsy Hinc Hp Href Hq) as Hres.
  split; [done|]. split; [apply overlapping_sublist|].
  split; [apply overlapping_elem_of|].
  intros Hnone. rewrite Hres. by rewrite overlapping_nil.
Qed.

(** C6: when the reference patch parses to zero hunks and the incremental
    patch to at least one, [filterPatchHunks] returns null, and the file is
    excluded just as a file that has no entry in the whole-PR change
    set. *)
Theorem filterPatchHunks_zero_hunk_reference
    incrementalPatch wholePRPatch patches reference wholePRFileMap incFile prFile :
  parsePatch incrementalPatch = Ok patches → ¬ zeroHunks patches →
  parsePatch wholePRPatch = Ok reference → zeroHunks reference →
  patch incFile = incrementalPatch → patch prFile = wholePRPatch →
  filterPatchHunks parsePatch incrementalPatch wholePRPatch = Ok None ∧
  filteredFile parsePatch (<[filename incFile := prFile]> wholePRFileMap) incFile
  = filteredFile parsePatch (delete (filename incFile) wholePRFileMap) incFile.
Proof.
  intros Hinc Hsome Href Hzero Hi Hr.
  pose proof (filterPatchHunks_no_reference _ _ _ _ Hinc Href Hzero Hsome) as Hres.
  split; [done|].
  rewrite (filteredFile_present _ _ prFile) by apply lookup_insert_eq.
  rewrite filteredFile_absent by apply lookup_delete_eq.
  by rewrite Hi, Hr, Hres.
Qed.

End Reconciler.

(** ** The reconciler on the parser of the [diff] package *)

Section ReconcilerExamples.

Import Scenario.

Lemma parsePatch_falsy_zeroHunks (text : option string) (patches : list ParsedDiff) :
  falsy text = true → Diff.parsePatch text = Ok patches → zeroHunks patches.
Proof.
  destruct text as [[|c s]|]; cbn; intros Hfalsy Hparse; try discriminate.
  by injection Hparse as <-.
Qed.

Lemma filterPatchHunks_empty_incremental_witness :
  (filterPatchHunks Diff.parsePatch (Some "") (Some wholePRText) = Ok None ∧
   filteredFile Diff.parsePatch {[ "emptied.js" := emptiedWholePR ]} emptied = Ok None) ∧
  (filterPatchHunks Diff.parsePatch (Some noHunkText) (Some wholePRText)
   = Ok (Some noHunkText) ∧
   filteredFile Diff.parsePatch
     {[ "notes.js" := mkFile "notes.js" (Some wholePRText) ]}
     (mkFile "notes.js" (Some noHunkText))
   = Ok (Some (mkFile "notes.js" (Some noHunkText)))).
Proof.
  split.
  - apply (proj1 (filterPatchHunks_empty_incremental Diff.parsePatch
                    (Some "") (Some wholePRText)
                    {[ "emptied.js" := emptiedWholePR ]} emptied eq_refl)).
    reflexivity.
  - eapply (proj2 (filterPatchHunks_empty_incremental Diff.parsePatch
                     (Some noHunkText) (Some wholePRText)
                     {[ "notes.js" := mkFile "notes.js" (Some wholePRText) ]}
                     (mkFile "notes.js" (Some noHunkText)) eq_refl)).
    + reflexivity.
    + vm_compute. reflexivity.
    + simpl. reflexivity.
    + vm_compute. reflexivity.
    + vm_compute. reflexivity.
    + reflexivity.
Defined.

(** C1 as stated fails: for an empty and for a null incremental patch
    [filterPatchHunks] returns null, not the patch, and the file is not
    retained. *)
Lemma filterPatchHunks_empty_incremental_counterexample :
  filterPatchHunks Diff.parsePatch (Some "") (Some wholePRText) = Ok None ∧
  filterPatchHunks Diff.parsePatch (Some "") (Some wholePRText) ≠ Ok (Some "") ∧
  filterPatchHunks Diff.parsePatch None (Some wholePRText) = Ok None ∧
  _excludeMergeOnlyChanges Diff.parsePatch (host [emptied; binary])
    processor [emptied; binary] "base0" = Ok [].
Proof. vm_compute. repeat split; congruence. Qed.

Lemma filterPatchHunks_keeps_overlapping_witness :
  filterPatchHunks Diff.parsePatch (Some incrementalText) (Some wholePRText)
  = Ok (Some survivingText).
Proof.
  edestruct (filterPatchHunks_keeps_overlapping Diff.parsePatch
               (Some incrementalText) (Some wholePRText)) as [Hres _].
  - apply parsePatch_falsy_zeroHunks.
  - vm_compute. reflexivity.
  - simpl. discriminate.
  - vm_compute. reflexivity.
  - simpl. discriminate.
  - rewrite Hres. vm_compute. reflexivity.
Defined.

Lemma filterPatchHunks_zero_hunk_reference_witness :
  filterPatchHunks Diff.parsePatch (Some incrementalText) (Some noHunkText) = Ok None ∧
  filteredFile Diff.parsePatch
    (<["utils.js" := mkFile "utils.js" (Some noHunkText)]> ∅) utils
  = filteredFile Diff.parsePatch (delete "utils.js" ∅) utils.
Proof.
  eapply (filterPatchHunks_zero_hunk_reference Diff.parsePatch
            (Some incrementalText) (Some noHunkText) _ _ ∅ utils
            (mkFile "utils.js" (Some noHunkText))).
  - vm_compute. reflexivity.
  - simpl. discriminate.
  - vm_compute. reflexivity.
  - simpl. reflexivity.
  - reflexivity.
  - reflexivity.
Defined.

End ReconcilerExamples.

(** ** The orchestrator *)

Section Orchestrator.

Variables AI_REVIEW_COMMENT_PREFIX SUMMARY_SEPARATOR : string.
Variable parsePatch : option string → result (list ParsedDiff).
Variable extname : string → string.
Variable listPRComments : result (list Comment).
Variable getFilesBetweenCommits : string → string → result (list File).

Abbreviation incrementalBase :=
  (incrementalBaseCommit AI_REVIEW_COMMENT_PREFIX SUMMARY_SEPARATOR).
Abbreviation excludeMergeOnly :=
  (_excludeMergeOnlyChanges parsePatch getFilesBetweenCommits).
Abbreviation processChangedFiles :=
  (_processChangedFiles AI_REVIEW_COMMENT_PREFIX SUMMARY_SEPARATOR parsePatch
     extname listPRComments getFilesBetweenCommits).

(** The files a full review keeps: the extension and path filter on the
    change set as fetched. *)
Abbreviation reviewable this fetched :=
  (_filterChangedFiles extname fetched
     (_includeExtensions this) (_excludeExtensions this)
     (_includePaths this) (_excludePaths this)).

Lemma filter_sublist {A} (f : A → bool) (l : list A) :
  List.filter f l `sublist_of` l.
Proof.
  induction l as [|x l IH]; cbn; [constructor|].
  destruct (f x); by constructor.
Qed.

Lemma full_review_run this comments :
  listPRComments = Ok comments →
  incrementalBase (_baseCommit this) comments = Ok (_baseCommit this) →
  processChangedFiles this
  = (fetched ← getFilesBetweenCommits (_baseCommit this) (_headCommit this);
     mret (set_filteredDiffs this (reviewable this fetched))).
Proof.
  intros Hcomments Hbase. unfold _processChangedFiles.
  rewrite Hcomments. cbn. rewrite Hbase. cbn.
  rewrite String.eqb_refl. cbn.
  by destruct (getFilesBetweenCommits _ _).
Qed.






(** C8: when the incremental base commit is the original base commit of
    the pull request, the files to review are the fetched ones that pass
    the extension and path filter: each is an entry of the fetched change
    set as it is, in the same order, and no patch is reconciled. *)
Theorem processChangedFiles_full_review_pass_through this comments fetched :
  listPRComments = Ok comments →
  incrementalBase (_baseCommit this) comments = Ok (_baseCommit this) →
  getFilesBetweenCommits (_baseCommit this) (_headCommit this) = Ok fetched →
  processChangedFiles this = Ok (set_filteredDiffs this (reviewable this fetched)) ∧
  reviewable this fetched `sublist_of` fetched ∧
  (∀ file, file ∈ reviewable this fetched → file ∈ fetched).
Proof.
  intros Hcomments Hbase Hfetch.
  rewrite (full_review_run _ _ Hcomments Hbase), Hfetch.
  split; [done|]. split; [apply filter_sublist|].
  intros file Hin. eapply elem_of_sublist; [done|apply filter_sublist].
Qed.

(** C10: when the last review comment yields an empty commit token, the
    incremental base commit stays the original base commit of the pull
    request, and the run is a full review: the change set from the original
    base is fetched and only the extension and path filter is applied. *)
Theorem processChangedFiles_empty_token this comments comment text :
  listPRComments = Ok comments →
  lastReviewComment AI_REVIEW_COMMENT_PREFIX comments = Some comment →
  body comment = Some text →
  newBaseCommit AI_REVIEW_COMMENT_PREFIX SUMMARY_SEPARATOR text = Ok "" →
  incrementalBase (_baseCommit this) comments = Ok (_baseCommit this) ∧
  processChangedFiles this
  = (fetched ← getFilesBetweenCommits (_baseCommit this) (_headCommit this);
     mret (set_filteredDiffs this (reviewable this fetched))).
Proof.
  intros Hcomments Hlast Hbody Htoken.
  assert (Hbase : incrementalBase (_baseCommit this) comments = Ok (_baseCommit this)).
  { unfold incrementalBaseCommit. by rewrite Hlast, Hbody, Htoken. }
  split; [done|].
  by apply (full_review_run this comments).
Qed.

End Orchestrator.

(** ** The orchestrator on the run of the examples *)

Section OrchestratorExamples.

Import Scenario.

Abbreviation run comments incremental :=
  (_processChangedFiles samplePrefix sampleSeparator Diff.parsePatch sampleExtname
     (Ok comments) (host incremental) processor).



Lemma processChangedFiles_full_review_pass_through_witness :
  run [mkComment (Some "Looks good to me")] [utils]
  = Ok (set_filteredDiffs processor wholePR).
Proof.
  destruct (processChangedFiles_full_review_pass_through
              samplePrefix sampleSeparator Diff.parsePatch sampleExtname
              (Ok [mkComment (Some "Looks good to me")]) (host [utils])
              processor [mkComment (Some "Looks good to me")] wholePR)
    as [Hrun _].
  - reflexivity.
  - vm_compute. reflexivity.
  - reflexivity.
  - rewrite Hrun. vm_compute. reflexivity.
Defined.

Lemma processChangedFiles_empty_token_witness :
  incrementalBaseCommit samplePrefix sampleSeparator "base0" prefixOnly = Ok "base0" ∧
  run prefixOnly [utils] = Ok (set_filteredDiffs processor wholePR).
Proof.
  destruct (processChangedFiles_empty_token
              samplePrefix sampleSeparator Diff.parsePatch sampleExtname
              (Ok prefixOnly) (host [utils])
              processor prefixOnly (mkComment (Some samplePrefix)) samplePrefix)
    as [Hbase Hrun].
  - reflexivity.
  - vm_compute. reflexivity.
  - reflexivity.
  - vm_compute. reflexivity.
  - split; [exact Hbase|]. rewrite Hrun. vm_compute. reflexivity.
Defined.

End OrchestratorExamples.

(** ** Parsing what [reconstructPatch] writes *)

Section RoundTrip.

Lemma prefix_append (lit rest : string) : String.prefix lit (lit +:+ rest) = true.
Proof.
  induction lit as [|c lit IH]; simpl; [by destruct rest|].
  destruct (ascii_dec c c); [exact IH|congruence].
Qed.

Lemma slice_append (lit rest : string) :
  slice (String.length lit) (lit +:+ rest) = rest.
Proof. induction lit as [|c lit IH]; cbn; [by destruct rest|exact IH]. Qed.

Lemma expect_append (lit rest : string) : expect lit (lit +:+ rest) = Some rest.
Proof. unfold expect. by rewrite prefix_append, slice_append. Qed.

Lemma splitFrom_nonempty (sep : string) (skip : nat) (s : string) :
  splitFrom sep skip s ≠ [].
Proof.
  revert skip. induction s as [|c s IH]; intros skip; [done|].
  cbn [splitFrom]. destruct skip as [|k]; [|apply IH].
  destruct (String.prefix sep (String c s)); [done|].
  by destruct (splitFrom sep 0 s).
Qed.

(** C7 fails on the code: the parser raises by one a start whose count
    is 0, [reconstructPatch] writes the raised start into the header, and
    parsing the text it writes raises the start once more. The old start of
    an added file goes from 0 to 1 and then to 2, the new start of a hunk
    that only removes lines from 4 to 5 and then to 6. *)
Theorem reconstructPatch_shifts_empty_range :
  Diff.parsePatch (Some Samples.addedFileText)
  = Ok [mkParsedDiff [mkHunk 1 0 1 3 ["+a"; "+b"; "+c"]]] ∧
  reconstructPatch [mkHunk 1 0 1 3 ["+a"; "+b"; "+c"]]
  = Scenario.text ["@@ -1,0 +1,3 @@"; "+a"; "+b"; "+c"] ∧
  Diff.parsePatch (Some (reconstructPatch [mkHunk 1 0 1 3 ["+a"; "+b"; "+c"]]))
  = Ok [mkParsedDiff [mkHunk 2 0 1 3 ["+a"; "+b"; "+c"]]] ∧
  Diff.parsePatch (Some Samples.removalText)
  = Ok [mkParsedDiff [mkHunk 5 2 5 0 ["-x"; "-y"]]] ∧
  Diff.parsePatch (Some (reconstructPatch [mkHunk 5 2 5 0 ["-x"; "-y"]]))
  = Ok [mkParsedDiff [mkHunk 5 2 6 0 ["-x"; "-y"]]].
Proof. vm_compute. repeat split. Qed.

End RoundTrip.

(** * Further properties of the code *)

(** ** The overlap predicate on degenerate and on proper ranges *)

Section OverlapRanges.

Implicit Types a b : Hunk.

(** X1: a hunk overlaps itself exactly when its new-file range has at
    least one line. *)
Theorem hunksOverlap_self a : hunksOverlap a a = true ↔ 1 ≤ newLines a.
Proof. rewrite hunksOverlap_iff. lia. Qed.

(** X2: two hunks whose new-file ranges are empty never overlap, not even
    at the same position. *)
Theorem hunksOverlap_two_deletions a b :
  newLines a = 0 → newLines b = 0 → hunksOverlap a b = false.
Proof.
  intros Ha Hb. apply not_true_is_false. rewrite hunksOverlap_iff. lia.
Qed.

Lemma hunksOverlap_two_deletions_witness :
  hunksOverlap Scenario.deletionAt5 Scenario.deletionAt5 = false.
Proof.
  apply (hunksOverlap_two_deletions Scenario.deletionAt5 Scenario.deletionAt5);
    reflexivity.
Defined.

(** X3: two hunks with at least one new-file line each overlap exactly
    when some line belongs to both ranges. *)
Theorem hunksOverlap_common_line a b :
  1 ≤ newLines a → 1 ≤ newLines b →
  hunksOverlap a b = true ↔ ∃ line, rangeIncludes a line ∧ rangeIncludes b line.
Proof.
  intros Ha Hb. rewrite hunksOverlap_iff. unfold rangeIncludes. split.
  - intros [Hab Hba]. exists (Z.max (newStart a) (newStart b)). lia.
  - intros (line & Hal & Hbl). lia.
Qed.

Lemma hunksOverlap_common_line_witness :
  hunksOverlap Scenario.threeLinesAt3 Scenario.threeLinesAt5 = true ↔
  ∃ line, rangeIncludes Scenario.threeLinesAt3 line ∧
          rangeIncludes Scenario.threeLinesAt5 line.
Proof.
  apply (hunksOverlap_common_line Scenario.threeLinesAt3 Scenario.threeLinesAt5);
    simpl; lia.
Defined.

End OverlapRanges.

(** ** What [filterPatchHunks] returns *)

Section ReconcilerResults.

Variable parsePatch : option string → result (list ParsedDiff).

Implicit Types incrementalPatch wholePRPatch : option string.

Lemma join_cons_header (h : Hunk) (body : list string) :
  ∃ tail, join LF (header h :: body) = String "@" tail.
Proof. destruct body; eexists; reflexivity. Qed.

Lemma reconstructPatch_cons (h : Hunk) (hs : list Hunk) :
  ∃ tail, reconstructPatch (h :: hs) = String "@" tail.
Proof.
  unfold reconstructPatch. cbn [map].
  destruct (join_cons_header h (lines h)) as [tail ->].
  destruct hs; eexists; reflexivity.
Qed.

(** The four ways [filterPatchHunks] returns. *)
Lemma filterPatchHunks_cases incrementalPatch wholePRPatch (out : option string) :
  filterPatchHunks parsePatch incrementalPatch wholePRPatch = Ok out →
  out = None
  ∨ (out = incrementalPatch ∧ falsy incrementalPatch = false)
  ∨ (∃ p ps q qs,
       falsy incrementalPatch = false ∧
       parsePatch incrementalPatch = Ok (p :: ps) ∧
       parsePatch wholePRPatch = Ok (q :: qs) ∧
       overlapping (hunks q) (hunks p) ≠ [] ∧
       out = Some (reconstructPatch (overlapping (hunks q) (hunks p)))).
Proof.
  unfold filterPatchHunks.
  destruct (falsy incrementalPatch) eqn:Hfalsy; [intros [= <-]; by left|].
  destruct (parsePatch incrementalPatch) as [incs|e] eqn:Hinc; [|done].
  destruct (parsePatch wholePRPatch) as [refs|e] eqn:Href; [|done]. cbn.
  destruct incs as [|[[|ph pt]] ps]; try (intros [= <-]; right; left; done).
  destruct refs as [|[[|qh qt]] qs]; try (intros [= <-]; by left).
  rewrite filter_overlapping.
  destruct (overlapping (qh :: qt) (ph :: pt)) as [|k ks] eqn:Hkept;
    cbn; intros [= <-]; [by left|].
  right; right. exists (mkParsedDiff (ph :: pt)), ps, (mkParsedDiff (qh :: qt)), qs.
  cbn [hunks]. rewrite Hkept. done.
Qed.

(** X4: whatever the parser, a text that [filterPatchHunks] returns is
    never empty: the caller's test [!filteredPatch] only catches null. *)
Theorem filterPatchHunks_never_empty incrementalPatch wholePRPatch (text : string) :
  filterPatchHunks parsePatch incrementalPatch wholePRPatch = Ok (Some text) →
  text ≠ "".
Proof.
  intros Hres.
  destruct (filterPatchHunks_cases _ _ _ Hres)
    as [?|[[<- Hfalsy]|(p & ps & q & qs & _ & _ & _ & Hne & [= ->])]];
    [done|by intros ->|].
  destruct (overlapping (hunks q) (hunks p)) as [|h hs]; [done|].
  by destruct (reconstructPatch_cons h hs) as [tail ->].
Qed.

Lemma overlapping_all (reference incremental : list Hunk) :
  Forall (λ h, Exists (λ r, hunksOverlap h r) reference) incremental →
  overlapping reference incremental = incremental.
Proof.
  unfold overlapping. induction 1 as [|h hs Hh _ IH]; [done|].
  rewrite filter_cons, decide_True by done. by rewrite IH.
Qed.

Lemma overlapping_self (hs : list Hunk) :
  Forall (λ h, 1 ≤ newLines h) hs → overlapping hs hs = hs.
Proof.
  intros Hproper. apply overlapping_all.
  apply Forall_forall. intros h Hin. apply Exists_exists. exists h.
  split; [done|]. apply Is_true_true, hunksOverlap_iff.
  rewrite Forall_forall in Hproper. specialize (Hproper h Hin). lia.
Qed.

(** X5: whatever the parser, a non-empty patch text reconciled against
    itself keeps all its hunks when each has at least one new-file line. *)
Theorem filterPatchHunks_against_itself (text : string) p ps :
  text ≠ "" →
  parsePatch (Some text) = Ok (p :: ps) → hunks p ≠ [] →
  Forall (λ h, 1 ≤ newLines h) (hunks p) →
  filterPatchHunks parsePatch (Some text) (Some text)
  = Ok (Some (reconstructPatch (hunks p))).
Proof.
  intros Htext Hparse Hne Hproper.
  rewrite (filterPatchHunks_parsed parsePatch _ _ p ps p ps); try done.
  - rewrite overlapping_self by done. by destruct (hunks p).
  - by destruct text.
Qed.

End ReconcilerResults.

Lemma filterPatchHunks_never_empty_witness : Scenario.survivingText ≠ "".
Proof.
  apply (filterPatchHunks_never_empty Diff.parsePatch
           (Some Scenario.incrementalText) (Some Scenario.wholePRText)).
  vm_compute. reflexivity.
Defined.

Lemma filterPatchHunks_against_itself_witness :
  filterPatchHunks Diff.parsePatch
    (Some Scenario.wholePRText) (Some Scenario.wholePRText)
  = Ok (Some Scenario.wholePRText).
Proof.
  rewrite (filterPatchHunks_against_itself Diff.parsePatch Scenario.wholePRText
             (mkParsedDiff
                [mkHunk 20 6 20 6 ["+feature(x)"];
                 mkHunk 50 6 50 6 ["-fix(c)"; "+fix(d)"]]) []).
  - vm_compute. reflexivity.
  - discriminate.
  - vm_compute. reflexivity.
  - simpl. discriminate.
  - simpl. repeat (apply Forall_cons_2; [simpl; lia|]). apply Forall_nil_2.
Defined.

(** ** The files that [_excludeMergeOnlyChanges] keeps *)

Section KeptFiles.

Variable parsePatch : option string → result (list ParsedDiff).
Variable getFilesBetweenCommits : string → string → result (list File).

Lemma wholePRFileMap_snoc (files : list File) (file : File) :
  wholePRFileMap (files ++ [file]) = <[filename file := file]> (wholePRFileMap files).
Proof. unfold wholePRFileMap. by rewrite foldl_snoc. Qed.

Lemma wholePRFileMap_lookup_Some (files : list File) (name : string) (file : File) :
  wholePRFileMap files !! name = Some file → file ∈ files ∧ filename file = name.
Proof.
  induction files as [|last files IH] using rev_ind; [done|].
  rewrite wholePRFileMap_snoc, lookup_insert. case_decide as Hname.
  - intros [= <-]. split; [|done]. apply elem_of_app. right. by left.
  - intros Hlook. destruct (IH Hlook) as [Hin Heq]. split; [|done].
    apply elem_of_app. by left.
Qed.

Lemma wholePRFileMap_lookup_None (files : list File) (name : string) :
  wholePRFileMap files !! name = None ↔ name ∉ filename <$> files.
Proof.
  induction files as [|last files IH] using rev_ind.
  { split; [intros _; apply not_elem_of_nil|intros _; apply lookup_empty]. }
  rewrite wholePRFileMap_snoc, lookup_insert, fmap_app, elem_of_app.
  cbn [fmap list_fmap]. rewrite list_elem_of_singleton.
  case_decide as Hname.
  - split; [done|]. intros Hnot. destruct Hnot. by right.
  - rewrite IH. split.
    + intros Hnot [Hin|Heq]; [done|]. by destruct Hname.
    + intros Hnot Hin. apply Hnot. by left.
Qed.

Lemma wholePRFileMap_last (before after : list File) (file : File) :
  filename file ∉ filename <$> after →
  wholePRFileMap (before ++ file :: after) !! filename file = Some file.
Proof.
  induction after as [|last after IH] using rev_ind; intros Hnot.
  - by rewrite wholePRFileMap_snoc, lookup_insert_eq.
  - rewrite fmap_app, elem_of_app in Hnot. cbn [fmap list_fmap] in Hnot.
    rewrite list_elem_of_singleton in Hnot.
    change (before ++ file :: after ++ [last])%list
      with (before ++ (file :: after) ++ [last])%list.
    rewrite app_assoc, wholePRFileMap_snoc, lookup_insert_ne.
    + apply IH. intros Hin. apply Hnot. by left.
    + intros Heq. apply Hnot. by right.
Qed.

(** X6: the whole-PR map finds a file exactly under the names of the
    whole-PR change set, and what it finds is an entry of that name. *)
Theorem wholePRFileMap_lookup (wholePRFiles : list File) (name : string) :
  (wholePRFileMap wholePRFiles !! name = None ↔ name ∉ filename <$> wholePRFiles) ∧
  (∀ file, wholePRFileMap wholePRFiles !! name = Some file →
           file ∈ wholePRFiles ∧ filename file = name).
Proof.
  split; [apply wholePRFileMap_lookup_None|].
  intros file. apply wholePRFileMap_lookup_Some.
Qed.

(** X7: when the whole-PR change set has several entries of one name, the
    map holds the last of them. *)
Theorem wholePRFileMap_last_entry (before after : list File) (file : File) :
  filename file ∉ filename <$> after →
  wholePRFileMap (before ++ file :: after) !! filename file = Some file.
Proof. apply wholePRFileMap_last. Qed.

Lemma mapM_Ok {A B} (f : A → result B) (l : list A) (out : list B) :
  mapM f l = Ok out → Forall2 (λ x y, f x = Ok y) l out.
Proof.
  revert out. induction l as [|x l IH]; intros out.
  - intros [= <-]. constructor.
  - cbn. destruct (f x) as [y|e] eqn:Hx; [|done]. cbn.
    destruct (mapM f l) as [ys|e]; [|done]. cbn.
    intros [= <-]. constructor; [done|]. by apply IH.
Qed.

Lemma filteredFile_kept (map : gmap string File) (incFile kept : File) :
  filteredFile parsePatch map incFile = Ok (Some kept) →
  filename kept = filename incFile ∧ falsy (patch kept) = false ∧
  ∃ prFile, map !! filename incFile = Some prFile ∧
            filterPatchHunks parsePatch (patch incFile) (patch prFile) = Ok (patch kept).
Proof.
  unfold filteredFile.
  destruct (map !! filename incFile) as [prFile|]; [|done].
  destruct (filterPatchHunks parsePatch _ _) as [out|e] eqn:Hout; [|done]. cbn.
  destruct (falsy out) eqn:Hfalsy; [done|].
  intros [= <-]. cbn. split; [done|]. split; [done|]. by exists prFile.
Qed.

Lemma omap_kept (map : gmap string File) (changedFiles : list File)
    (mapped : list (option File)) :
  Forall2 (λ x y, filteredFile parsePatch map x = Ok y) changedFiles mapped →
  (filename <$> omap id mapped) `sublist_of` (filename <$> changedFiles) ∧
  Forall (keptFrom parsePatch map changedFiles) (omap id mapped).
Proof.
  induction 1 as [|x y xs ys Hxy _ [IHsub IHall]]; [by split; constructor|].
  assert (Hweaken : Forall (keptFrom parsePatch map (x :: xs)) (omap id ys)).
  { eapply Forall_impl; [exact IHall|].
    intros kept (Htruthy & incFile & prFile & Hin & Hrest).
    split; [done|]. exists incFile, prFile. split; [by right|done]. }
  destruct y as [kept|]; cbn.
  - destruct (filteredFile_kept _ _ _ Hxy) as (Hname & Htruthy & prFile & Hlook & Hres).
    split.
    + rewrite Hname. by constructor.
    + constructor; [|done]. split; [done|].
      exists x, prFile. rewrite Hname. split; [by left|done].
  - split; [by constructor|done].
Qed.

(** X8: [_excludeMergeOnlyChanges] keeps files of the incremental change
    set in their order and adds none; every file it keeps has an entry in
    the whole-PR change set and a non-empty patch, the one that
    [filterPatchHunks] returned for it. *)
Theorem excludeMergeOnlyChanges_kept this changedFiles originalPRBase kept :
  _excludeMergeOnlyChanges parsePatch getFilesBetweenCommits
    this changedFiles originalPRBase = Ok kept →
  ∃ wholePRFiles,
    getFilesBetweenCommits originalPRBase (_headCommit this) = Ok wholePRFiles ∧
    (filename <$> kept) `sublist_of` (filename <$> changedFiles) ∧
    ∀ file, file ∈ kept →
      filename file ∈ filename <$> wholePRFiles ∧
      falsy (patch file) = false ∧
      ∃ incFile prFile,
        incFile ∈ changedFiles ∧ filename incFile = filename file ∧
        prFile ∈ wholePRFiles ∧ filename prFile = filename file ∧
        filterPatchHunks parsePatch (patch incFile) (patch prFile) = Ok (patch file).
Proof.
  unfold _excludeMergeOnlyChanges.
  destruct (getFilesBetweenCommits _ _) as [wholePRFiles|e]; [|done]. cbn.
  destruct (mapM _ changedFiles) as [mapped|e] eqn:Hmapped; [|done]. cbn.
  intros [= <-]. exists wholePRFiles. split; [done|].
  destruct (omap_kept _ _ _ (mapM_Ok _ _ _ Hmapped)) as [Hsub Hall].
  split; [done|]. intros file Hin.
  rewrite Forall_forall in Hall.
  destruct (Hall file Hin) as (Htruthy & incFile & prFile & Hinc & Hname & Hlook & Hres).
  destruct (wholePRFileMap_lookup_Some _ _ _ Hlook) as [Hpr Hprname].
  split; [|split; [done|]].
  - rewrite <- Hprname. by apply list_elem_of_fmap_2.
  - by exists incFile, prFile.
Qed.

End KeptFiles.

Lemma wholePRFileMap_lookup_witness :
  Scenario.utilsWholePR ∈ Scenario.wholePR ∧
  filename Scenario.utilsWholePR = "utils.js".
Proof.
  apply (proj2 (wholePRFileMap_lookup Scenario.wholePR "utils.js")).
  vm_compute. reflexivity.
Defined.

Lemma wholePRFileMap_last_entry_witness :
  wholePRFileMap
    ([mkFile "notes.js" (Some "first")]
     ++ mkFile "notes.js" (Some "second") :: [Scenario.utils])
  !! "notes.js"
  = Some (mkFile "notes.js" (Some "second")).
Proof.
  apply (wholePRFileMap_last_entry
           [mkFile "notes.js" (Some "first")] [Scenario.utils]
           (mkFile "notes.js" (Some "second"))).
  apply (bool_decide_unpack _). vm_compute. exact I.
Defined.

Lemma excludeMergeOnlyChanges_kept_witness :
  ∃ wholePRFiles,
    Scenario.host [Scenario.utils; Scenario.legacy] "base0" "head9" = Ok wholePRFiles ∧
    (filename <$> [mkFile "utils.js" (Some Scenario.survivingText)])
      `sublist_of` (filename <$> [Scenario.utils; Scenario.legacy]) ∧
    ∀ file, file ∈ [mkFile "utils.js" (Some Scenario.survivingText)] →
      filename file ∈ filename <$> wholePRFiles ∧
      falsy (patch file) = false ∧
      ∃ incFile prFile,
        incFile ∈ [Scenario.utils; Scenario.legacy] ∧ filename incFile = filename file ∧
        prFile ∈ wholePRFiles ∧ filename prFile = filename file ∧
        filterPatchHunks Diff.parsePatch (patch incFile) (patch prFile)
        = Ok (patch file).
Proof.
  apply (excludeMergeOnlyChanges_kept Diff.parsePatch
           (Scenario.host [Scenario.utils; Scenario.legacy])
           Scenario.processor [Scenario.utils; Scenario.legacy] "base0").
  vm_compute. reflexivity.
Defined.

(** ** The last review comment and its commit token *)

Section ReviewMarker.

Variables AI_REVIEW_COMMENT_PREFIX SUMMARY_SEPARATOR : string.

Abbreviation isMarker := (isReviewComment AI_REVIEW_COMMENT_PREFIX).
Abbreviation lastMarker := (lastReviewComment AI_REVIEW_COMMENT_PREFIX).
Abbreviation token := (newBaseCommit AI_REVIEW_COMMENT_PREFIX SUMMARY_SEPARATOR).

Lemma find_skip {A} (f : A → bool) (skipped rest : list A) :
  Forall (λ x, f x = false) skipped →
  List.find f (skipped ++ rest) = List.find f rest.
Proof. induction 1 as [|x l Hx _ IH]; [done|]. cbn. by rewrite Hx. Qed.

(** X9: the comment that [_processChangedFiles] reads the commit from is
    the most recent one that carries the prefix: a review comment followed
    only by comments that carry none is the one found. *)
Theorem lastReviewComment_most_recent (before after : list Comment) (comment : Comment) :
  isMarker comment = true →
  Forall (λ c, isMarker c = false) after →
  lastMarker (before ++ comment :: after) = Some comment.
Proof.
  intros Hcomment Hafter. unfold lastReviewComment.
  rewrite rev_app_distr. cbn [rev]. rewrite <- app_assoc, find_skip.
  - cbn. by rewrite Hcomment.
  - apply Forall_forall. intros c Hin.
    rewrite Forall_forall in Hafter. apply Hafter.
    apply list_elem_of_In, in_rev, list_elem_of_In. done.
Qed.

(** X10: a comment that is found is a comment of the pull request whose
    body is a non-empty text that starts with the prefix; none is found
    exactly when no comment is such. *)
Theorem lastReviewComment_found (comments : list Comment) :
  (∀ comment, lastMarker comments = Some comment →
     comment ∈ comments ∧
     ∃ text, body comment = Some text ∧ text ≠ "" ∧
             startsWith text AI_REVIEW_COMMENT_PREFIX = true) ∧
  (lastMarker comments = None ↔ Forall (λ c, isMarker c = false) comments).
Proof.
  unfold lastReviewComment. split.
  - intros comment Hfind. apply find_some in Hfind as [Hin Hmarker]. split.
    + apply list_elem_of_In, in_rev. done.
    + unfold isReviewComment in Hmarker.
      destruct (body comment) as [text|]; [|done].
      apply andb_true_iff in Hmarker as [Hne Hprefix].
      exists text. split; [done|]. split; [|done]. by intros ->.
  - split.
    + intros Hnone. apply Forall_forall. intros c Hin.
      apply (find_none _ _ Hnone). apply in_rev.
      rewrite rev_involutive. by apply list_elem_of_In.
    + intros Hall.
      destruct (List.find isMarker (rev comments)) as [c|] eqn:Hfind; [|done].
      apply find_some in Hfind as [Hin Hmarker].
      rewrite Forall_forall in Hall.
      rewrite (Hall c) in Hmarker; [done|]. by apply list_elem_of_In, in_rev.
Qed.

End ReviewMarker.

(** ** Pieces of a split and trimmed texts *)

Section SplitAndTrim.

Abbreviation splitAt c := (splitFrom (String c EmptyString) 0).

Lemma splitAt_cons (c d : ascii) (s : string) :
  splitAt c (String d s)
  = if Ascii.eqb d c then "" :: splitAt c s
    else match splitAt c s with
         | piece :: pieces => String d piece :: pieces
         | [] => [String d ""]
         end.
Proof.
  cbn [splitFrom String.prefix String.length Nat.sub].
  destruct (ascii_dec c d) as [<-|Hne].
  - rewrite Ascii.eqb_refl. by destruct s.
  - destruct (Ascii.eqb_spec d c) as [->|]; [by destruct Hne|done].
Qed.

Lemma splitAt_without (c : ascii) (s : string) :
  Forall (λ piece, without c piece = true) (splitAt c s).
Proof.
  induction s as [|d s IH]; [by repeat constructor|].
  rewrite splitAt_cons.
  destruct (Ascii.eqb d c) eqn:Hd; [by constructor|].
  destruct (splitAt c s) as [|piece pieces].
  - repeat constructor. simpl. by rewrite Hd.
  - inversion IH as [|? ? Hpiece Hpieces]; subst.
    constructor; [|done]. simpl. by rewrite Hd, Hpiece.
Qed.

Lemma splitAt_single (c : ascii) (s : string) :
  without c s = true → splitAt c s = [s].
Proof.
  induction s as [|d s IH]; [done|].
  simpl without. intros [Hd Hs]%andb_true_iff.
  rewrite splitAt_cons, (IH Hs).
  by destruct (Ascii.eqb d c).
Qed.

Lemma splitAt_append (c : ascii) (s1 s2 : string) :
  splitAt c (s1 +:+ String c s2) = (splitAt c s1 ++ splitAt c s2)%list.
Proof.
  induction s1 as [|d s1 IH].
  - change ("" +:+ String c s2) with (String c s2).
    by rewrite splitAt_cons, Ascii.eqb_refl.
  - change (String d s1 +:+ String c s2) with (String d (s1 +:+ String c s2)).
    rewrite !splitAt_cons, IH.
    destruct (Ascii.eqb d c); [done|].
    pose proof (splitFrom_nonempty (String c "") 0 s1).
    by destruct (splitAt c s1).
Qed.

Lemma without_trimStart (c : ascii) (s : string) :
  without c s = true → without c (trimStart s) = true.
Proof.
  induction s as [|d s IH]; [done|].
  intros Hs. simpl trimStart. destruct (isWhiteSpace d); [|done].
  simpl in Hs. apply andb_true_iff in Hs as [_ Hs]. by apply IH.
Qed.

Lemma without_trimEnd (c : ascii) (s : string) :
  without c s = true → without c (trimEnd s) = true.
Proof.
  induction s as [|d s IH]; [done|].
  simpl without. intros [Hd Hs]%andb_true_iff. simpl trimEnd.
  specialize (IH Hs). destruct (trimEnd s) as [|e t].
  - destruct (isWhiteSpace d); [done|]. simpl. by rewrite Hd.
  - simpl in *. by rewrite Hd, IH.
Qed.

Lemma startsBlank_trimStart (s : string) : startsBlank (trimStart s) = false.
Proof.
  induction s as [|d s IH]; [done|].
  simpl trimStart. destruct (isWhiteSpace d) eqn:Hd; [done|]. simpl. done.
Qed.

Lemma startsBlank_trimEnd (s : string) :
  startsBlank s = false → startsBlank (trimEnd s) = false.
Proof.
  destruct s as [|d s]; [done|]. simpl startsBlank. intros Hd.
  simpl trimEnd. destruct (trimEnd s); [|done]. by rewrite Hd.
Qed.

Lemma endsBlank_trimEnd (s : string) : endsBlank (trimEnd s) = false.
Proof.
  induction s as [|d s IH]; [done|].
  simpl trimEnd. destruct (trimEnd s) as [|e t].
  - destruct (isWhiteSpace d) eqn:Hd; [done|]. simpl. done.
  - exact IH.
Qed.

Lemma trimStart_id (s : string) : startsBlank s = false → trimStart s = s.
Proof. destruct s as [|d s]; [done|]. simpl. by intros ->. Qed.

Lemma trimEnd_id (s : string) : endsBlank s = false → trimEnd s = s.
Proof.
  induction s as [|d s IH]; [done|].
  destruct s as [|e t].
  - simpl. by intros ->.
  - intros Hs. change (endsBlank (String d (String e t))) with (endsBlank (String e t)) in Hs.
    change (trimEnd (String d (String e t)))
      with (match trimEnd (String e t) with
            | EmptyString => if isWhiteSpace d then EmptyString else String d EmptyString
            | r => String d r
            end).
    by rewrite (IH Hs).
Qed.

Lemma trim_trimmed (s : string) :
  startsBlank (trim s) = false ∧ endsBlank (trim s) = false.
Proof.
  unfold trim. split.
  - apply startsBlank_trimEnd, startsBlank_trimStart.
  - apply endsBlank_trimEnd.
Qed.

Lemma trim_id (s : string) :
  startsBlank s = false → endsBlank s = false → trim s = s.
Proof. intros Hstart Hend. unfold trim. by rewrite trimStart_id, trimEnd_id. Qed.

Lemma replace_unfold (pat rep s : string) :
  replace pat rep s
  = if String.prefix pat s then rep +:+ slice (String.length pat) s
    else match s with
         | EmptyString => EmptyString
         | String c s' => String c (replace pat rep s')
         end.
Proof. by destruct s. Qed.

Lemma replace_prefix (pat rest : string) : replace pat "" (pat +:+ rest) = rest.
Proof. by rewrite replace_unfold, prefix_append, slice_append. Qed.

End SplitAndTrim.

(** ** The commit token of a review comment *)

Section ReviewToken.

Variables AI_REVIEW_COMMENT_PREFIX SUMMARY_SEPARATOR : string.

Abbreviation commitToken := (newBaseCommit AI_REVIEW_COMMENT_PREFIX SUMMARY_SEPARATOR).

(** X11: a commit token that [_processChangedFiles] extracts contains no
    space, and neither starts nor ends with white space. *)
Theorem newBaseCommit_token (text tok : string) :
  commitToken text = Ok tok →
  without " " tok = true ∧ startsBlank tok = false ∧ endsBlank tok = false.
Proof.
  unfold newBaseCommit.
  destruct (first (split SUMMARY_SEPARATOR text)) as [segment|e]; [|done]. cbn.
  change (split " " ?x) with (splitFrom " " 0 x).
  pose proof (splitAt_without " " (replace AI_REVIEW_COMMENT_PREFIX "" segment)) as Hpieces.
  destruct (splitFrom " " 0 _) as [|piece pieces]; [done|]. cbn.
  intros [= <-]. inversion Hpieces as [|? ? Hpiece _]; subst.
  split; [|apply trim_trimmed].
  by apply without_trimEnd, without_trimStart.
Qed.

(** X12: when the text before the separator is the prefix, a commit
    identifier without white space, and a space followed by anything, the
    commit token is that identifier. *)
Theorem newBaseCommit_recovers (text sha tail : string) (others : list string) :
  split SUMMARY_SEPARATOR text
  = (AI_REVIEW_COMMENT_PREFIX +:+ sha +:+ " " +:+ tail) :: others →
  without " " sha = true → startsBlank sha = false → endsBlank sha = false →
  commitToken text = Ok sha.
Proof.
  intros Hsplit Hspace Hstart Hend. unfold newBaseCommit.
  rewrite Hsplit. cbn [first mbind result_bind].
  rewrite replace_prefix.
  change (split " " ?x) with (splitFrom " " 0 x).
  change (sha +:+ " " +:+ tail) with (sha +:+ String " " tail).
  rewrite splitAt_append, (splitAt_single " " sha Hspace).
  cbn [app first mbind result_bind mret result_ret].
  by rewrite trim_id.
Qed.

End ReviewToken.

Lemma newBaseCommit_token_witness :
  without " " "abc123" = true ∧ startsBlank "abc123" = false ∧ endsBlank "abc123" = false.
Proof.
  apply (newBaseCommit_token Scenario.samplePrefix Scenario.sampleSeparator
           (Scenario.samplePrefix +:+ "abc123 and more")).
  vm_compute. reflexivity.
Defined.

Lemma newBaseCommit_recovers_witness :
  newBaseCommit Scenario.samplePrefix Scenario.sampleSeparator
    (Scenario.samplePrefix +:+ "abc123 " +:+ Scenario.sampleSeparator +:+ " two files")
  = Ok "abc123".
Proof.
  apply (newBaseCommit_recovers Scenario.samplePrefix Scenario.sampleSeparator
           _ "abc123" "" [" two files"]); reflexivity.
Defined.

(** ** The extension and path filter *)

Section PathFilter.

Variable extname : string → string.

Implicit Types file : File.

Lemma filter_all {A} (f : A → bool) (l : list A) :
  (∀ x, f x = true) → List.filter f l = l.
Proof.
  intros Hall. induction l as [|x l IH]; [done|].
  cbn. by rewrite Hall, IH.
Qed.

Lemma without_replaceAllChar (c d : ascii) (s : string) :
  Ascii.eqb d c = false → without c (replaceAllChar c (String d "") s) = true.
Proof.
  intros Hd. induction s as [|e s IH]; [done|].
  simpl replaceAllChar. destruct (Ascii.eqb c e) eqn:He.
  - simpl. change ("" +:+ ?x) with x. by rewrite Hd, IH.
  - simpl. rewrite Ascii.eqb_sym, He. exact IH.
Qed.

Lemma replaceAllChar_without (c : ascii) (rep s : string) :
  without c s = true → replaceAllChar c rep s = s.
Proof.
  induction s as [|e s IH]; [done|].
  simpl without. intros [He Hs]%andb_true_iff.
  simpl replaceAllChar. rewrite Ascii.eqb_sym.
  apply negb_true_iff in He. by rewrite He, (IH Hs).
Qed.

(** X13: with no extension and no path configured, the filter keeps every
    changed file. *)
Theorem filterChangedFiles_defaults (changedFiles : list File) :
  _filterChangedFiles extname changedFiles "" "" "" "" = changedFiles.
Proof. unfold _filterChangedFiles. by apply filter_all. Qed.

(** X14: an exclusion overrides the inclusions: a file whose extension is
    an excluded extension, or whose path starts with an excluded path, is
    not kept, whatever is included. *)
Theorem filterChangedFiles_exclusion_wins
    (changedFiles : list File) (includeExtensions excludeExtensions : string)
    (includePaths excludePaths : string) file :
  let filePath := replaceAllChar "\" "/" (filename file) in
  includes (toArray excludeExtensions) (extname filePath) = true
  ∨ existsb (λ p, startsWith filePath p) (toArray excludePaths) = true →
  file ∉ _filterChangedFiles extname changedFiles
           includeExtensions excludeExtensions includePaths excludePaths.
Proof.
  intros filePath Hexcluded Hin.
  unfold _filterChangedFiles in Hin.
  apply list_elem_of_In, filter_In in Hin as [_ Hkeep].
  unfold shouldReview in Hkeep. fold filePath in Hkeep.
  apply andb_true_iff in Hkeep as [Hkeep Hpath].
  apply andb_true_iff in Hkeep as [Hkeep _].
  apply andb_true_iff in Hkeep as [_ Hext].
  apply negb_true_iff in Hpath, Hext.
  destruct Hexcluded as [Hx|Hx]; congruence.
Qed.

(** X15: a backslash in a file name counts as a slash: the file is kept
    exactly when the file of the same name written with slashes is. *)
Theorem shouldReview_backslash (incExt excExt incPath excPath : list string) file :
  shouldReview extname incExt excExt incPath excPath file
  = shouldReview extname incExt excExt incPath excPath
      (mkFile (replaceAllChar "\" "/" (filename file)) (patch file)).
Proof.
  unfold shouldReview. cbn [filename].
  by rewrite (replaceAllChar_without "\" "/" (replaceAllChar "\" "/" (filename file)))
    by (by apply without_replaceAllChar).
Qed.

(** X16: the entries that [toArray] reads from a comma-separated setting
    are not empty, contain no comma, and neither start nor end with white
    space. *)
Theorem toArray_entries (str entry : string) :
  entry ∈ toArray str →
  entry ≠ "" ∧ without "," entry = true ∧
  startsBlank entry = false ∧ endsBlank entry = false.
Proof.
  unfold toArray. destruct (falsy (Some str)); [by intros ?%elem_of_nil|].
  intros Hin. apply list_elem_of_In, filter_In in Hin as [Hin Hne].
  apply in_map_iff in Hin as (piece & <- & Hpiece).
  change (split "," str) with (splitFrom "," 0 str) in Hpiece.
  pose proof (splitAt_without "," str) as Hpieces.
  rewrite Forall_forall in Hpieces.
  specialize (Hpieces piece (proj2 (list_elem_of_In _ _) Hpiece)).
  split; [|split; [|apply trim_trimmed]].
  - intros Hempty. by rewrite Hempty in Hne.
  - by apply without_trimEnd, without_trimStart.
Qed.

End PathFilter.

Lemma filterChangedFiles_exclusion_wins_witness :
  Scenario.utils ∉ _filterChangedFiles Scenario.sampleExtname
                     [Scenario.utils] ".js" " .ts, .js" "" "".
Proof.
  apply (filterChangedFiles_exclusion_wins Scenario.sampleExtname
           [Scenario.utils] ".js" " .ts, .js" "" "" Scenario.utils).
  left. vm_compute. reflexivity.
Defined.

Lemma toArray_entries_witness :
  ".js" ≠ "" ∧ without "," ".js" = true ∧
  startsBlank ".js" = false ∧ endsBlank ".js" = false.
Proof.
  apply (toArray_entries " .ts, .js ,," ".js").
  apply (bool_decide_unpack _). vm_compute. exact I.
Defined.

(** ** What a run changes *)

Section RunFrame.

Variables AI_REVIEW_COMMENT_PREFIX SUMMARY_SEPARATOR : string.
Variable parsePatch : option string → result (list ParsedDiff).
Variable extname : string → string.
Variable listPRComments : result (list Comment).
Variable getFilesBetweenCommits : string → string → result (list File).

Lemma excludeMergeOnlyChanges_names this changedFiles originalPRBase kept :
  _excludeMergeOnlyChanges parsePatch getFilesBetweenCommits
    this changedFiles originalPRBase = Ok kept →
  (filename <$> kept) `sublist_of` (filename <$> changedFiles).
Proof.
  unfold _excludeMergeOnlyChanges.
  destruct (getFilesBetweenCommits _ _) as [wholePRFiles|e]; [|done]. cbn.
  destruct (mapM _ changedFiles) as [mapped|e] eqn:Hmapped; [|done]. cbn.
  intros [= <-].
  by destruct (omap_kept parsePatch _ _ _ (mapM_Ok _ _ _ Hmapped)).
Qed.

(** X17: a run that completes changes [_filteredDiffs] only, and the files
    it leaves there are files of the change set fetched from the resolved
    base commit, in the order of that change set: none is added, in a full
    review and in an incremental one. *)
Theorem processChangedFiles_frame (this after : InputProcessor) :
  _processChangedFiles AI_REVIEW_COMMENT_PREFIX SUMMARY_SEPARATOR parsePatch
    extname listPRComments getFilesBetweenCommits this = Ok after →
  (∃ diffs, after = set_filteredDiffs this diffs) ∧
  ∃ comments base fetched,
    listPRComments = Ok comments ∧
    incrementalBaseCommit AI_REVIEW_COMMENT_PREFIX SUMMARY_SEPARATOR
      (_baseCommit this) comments = Ok base ∧
    getFilesBetweenCommits base (_headCommit this) = Ok fetched ∧
    (filename <$> _filteredDiffs after) `sublist_of` (filename <$> fetched).
Proof.
  unfold _processChangedFiles.
  destruct listPRComments as [comments|e]; [|done]. cbn.
  destruct (incrementalBaseCommit _ _ _ comments) as [base|e] eqn:Hbase; [|done]. cbn.
  destruct (getFilesBetweenCommits base _) as [fetched|e] eqn:Hfetched; [|done]. cbn.
  destruct (negb (String.eqb base (_baseCommit this))).
  - destruct (_excludeMergeOnlyChanges _ _ _ fetched _) as [kept|e] eqn:Hkept; [|done].
    cbn. intros [= <-]. split; [by eexists|].
    exists comments, base, fetched. repeat split; try done. cbn.
    transitivity (filename <$> kept).
    + apply fmap_sublist, filter_sublist.
    + by eapply excludeMergeOnlyChanges_names.
  - cbn. intros [= <-]. split; [by eexists|].
    exists comments, base, fetched. repeat split; try done. cbn.
    apply fmap_sublist, filter_sublist.
Qed.

End RunFrame.

Lemma processChangedFiles_frame_witness :
  (∃ diffs,
     set_filteredDiffs Scenario.processor [mkFile "utils.js" (Some Scenario.survivingText)]
     = set_filteredDiffs Scenario.processor diffs) ∧
  ∃ comments base fetched,
    Ok Scenario.reviewed = Ok comments ∧
    incrementalBaseCommit Scenario.samplePrefix Scenario.sampleSeparator
      "base0" comments = Ok base ∧
    Scenario.host [Scenario.utils; Scenario.legacy] base "head9" = Ok fetched ∧
    (filename <$> [mkFile "utils.js" (Some Scenario.survivingText)])
      `sublist_of` (filename <$> fetched).
Proof.
  apply (processChangedFiles_frame Scenario.samplePrefix Scenario.sampleSeparator
           Diff.parsePatch Scenario.sampleExtname (Ok Scenario.reviewed)
           (Scenario.host [Scenario.utils; Scenario.legacy]) Scenario.processor
           (set_filteredDiffs Scenario.processor
              [mkFile "utils.js" (Some Scenario.survivingText)])).
  vm_compute. reflexivity.
Defined.

(** ** The sanitizers *)

Section SanitizerFacts.

Variable heEncode : string → string.
Variable shellQuote : list string → string.
Variable normalize : string → string.

Lemma climbs_short (c : ascii) : ¬ climbs "" ∧ ¬ climbs (String c "").
Proof.
  unfold climbs, startsWith. cbn [String.prefix].
  split; intros [H|[H|H]]; try discriminate;
    destruct (ascii_dec "." c); discriminate.
Qed.

Lemma climbs_inv (c1 c2 : ascii) (rest : string) :
  climbs (String c1 (String c2 rest)) →
  Ascii.eqb c1 "." = true ∧ Ascii.eqb c2 "." = true ∧
  match rest with
  | EmptyString => True
  | String c3 _ => Ascii.eqb c3 "/" || Ascii.eqb c3 "\" = true
  end.
Proof.
  unfold climbs, startsWith.
  intros [H|[H|H]].
  - cbn [String.prefix] in H.
    destruct (ascii_dec "." c1) as [<-|]; [|done].
    destruct (ascii_dec "." c2) as [<-|]; [|done].
    destruct rest as [|c3 r]; [done|]. cbn [String.prefix] in H.
    destruct (ascii_dec "/" c3) as [<-|]; [|done]. done.
  - cbn [String.prefix] in H.
    destruct (ascii_dec "." c1) as [<-|]; [|done].
    destruct (ascii_dec "." c2) as [<-|]; [|done].
    destruct rest as [|c3 r]; [done|]. cbn [String.prefix] in H.
    destruct (ascii_dec "\" c3) as [<-|]; [|done]. done.
  - by injection H as -> -> ->.
Qed.

Lemma stripParents_bounded (n : nat) (s : string) :
  (String.length s ≤ n)%nat → ¬ climbs (stripParents s).
Proof.
  revert s. induction n as [|n IH]; intros s Hlen.
  - destruct s; [apply climbs_short with (c := "a"%char)|simpl in Hlen; lia].
  - destruct s as [|c1 [|c2 rest]];
      [apply climbs_short with (c := "a"%char)|apply climbs_short|].
    cbn [stripParents].
    destruct (Ascii.eqb c1 "." && Ascii.eqb c2 ".") eqn:Hdots.
    + destruct rest as [|c3 rest']; [apply climbs_short with (c := "a"%char)|].
      destruct (Ascii.eqb c3 "/" || Ascii.eqb c3 "\") eqn:Hsep.
      * apply IH. simpl in Hlen. lia.
      * intros (_ & _ & Hc3)%climbs_inv. congruence.
    + intros (H1 & H2 & _)%climbs_inv. rewrite H1, H2 in Hdots. discriminate.
Qed.

(** X18: whatever [normalize] returns, the path that [sanitizePath]
    returns neither starts with a [..] segment closed by a slash or a
    backslash, nor is [..] or [.]; for [null] it is the empty text. *)
Theorem sanitizePath_never_climbs (value : option string) :
  ¬ climbs (sanitizePath normalize value) ∧
  sanitizePath normalize value ≠ "." ∧
  sanitizePath normalize None = "".
Proof.
  split; [|split; [|done]].
  - unfold sanitizePath. destruct value as [v|]; [|apply climbs_short with (c := "a"%char)].
    destruct (falsy _); [apply climbs_short with (c := "a"%char)|].
    destruct (String.eqb _ "."); [apply climbs_short with (c := "a"%char)|].
    by eapply stripParents_bounded.
  - unfold sanitizePath. destruct value as [v|]; [|done].
    destruct (falsy _); [done|].
    destruct (String.eqb_spec (stripParents (normalize
      (replaceClass isUnsafeInPath "_" (trim v)))) "."); done.
Qed.

Lemma withoutClass_replaceClass (class : ascii → bool) (s : string) :
  withoutClass class (replaceClass class "" s) = true.
Proof.
  induction s as [|c s IH]; [done|].
  simpl replaceClass. destruct (class c) eqn:Hc; [exact IH|].
  simpl. by rewrite Hc, IH.
Qed.

Lemma length_replaceClass (class : ascii → bool) (s : string) :
  (String.length (replaceClass class "" s) ≤ String.length s)%nat.
Proof.
  induction s as [|c s IH]; [done|].
  simpl replaceClass. destruct (class c); simpl; [|lia].
  change ("" +:+ ?x) with x. lia.
Qed.

Lemma length_sliceTo (n : nat) (s : string) : (String.length (sliceTo n s) ≤ n)%nat.
Proof.
  revert s. induction n as [|n IH]; intros [|c s]; simpl; try lia.
  specialize (IH s). lia.
Qed.

(** X19: outside the [html] and [shell] contexts, the text that
    [sanitizeString] returns contains no control character and is at most
    [maxLen] long. *)
Theorem sanitizeString_plain (value : option string) (maxLen : nat) (context : string) :
  context ≠ "html" → context ≠ "shell" →
  let out := sanitizeString heEncode shellQuote value maxLen context in
  withoutClass isControl out = true ∧ (String.length out ≤ maxLen)%nat.
Proof.
  intros Hhtml Hshell out. subst out. unfold sanitizeString.
  destruct value as [v|]; [|split; [done|simpl; lia]].
  destruct (String.eqb_spec context "html"); [done|].
  destruct (String.eqb_spec context "shell"); [done|].
  split; [apply withoutClass_replaceClass|].
  etransitivity; [apply length_replaceClass|apply length_sliceTo].
Qed.

End SanitizerFacts.

Lemma sanitizeString_plain_witness :
  let out := sanitizeString Samples.sampleNormalize (λ _, "")
               (Some ("  two" +:+ LF +:+ "lines  ")) 6 "none" in
  withoutClass isControl out = true ∧ (String.length out ≤ 6)%nat.
Proof.
  apply (sanitizeString_plain Samples.sampleNormalize (λ _, "")
           (Some ("  two" +:+ LF +:+ "lines  ")) 6 "none"); discriminate.
Defined.

(** ** The provider of the agent *)

Section Provider.

Implicit Types this : Inputs.

Lemma getAIAgent_supported this :
  includes supportedProviders (_aiProvider this) = true →
  ∃ class,
    getAIAgent this
    = Returns (mkAgent class (_apiKey this) (_model this) (_reviewRulesContent this)).
Proof.
  unfold includes, supportedProviders, getAIAgent. cbn [existsb].
  destruct (String.eqb (_aiProvider this) "openai"); [by eexists|].
  destruct (String.eqb (_aiProvider this) "anthropic"); [by eexists|].
  destruct (String.eqb (_aiProvider this) "google"); [by eexists|].
  destruct (String.eqb (_aiProvider this) "deepseek"); [by eexists|].
  destruct (String.eqb (_aiProvider this) "x"); [by eexists|].
  destruct (String.eqb (_aiProvider this) "perplexity"); [by eexists|].
  done.
Qed.

(** X20: [getAIAgent] constructs an agent exactly for the providers that
    [_validateInputs] supports; for any other provider it throws. *)
Theorem getAIAgent_supported_iff this :
  (∃ agent, getAIAgent this = Returns agent)
  ↔ includes supportedProviders (_aiProvider this) = true.
Proof.
  split.
  - intros [agent Hagent]. revert Hagent.
    unfold includes, supportedProviders, getAIAgent. cbn [existsb].
    destruct (String.eqb (_aiProvider this) "openai"); [done|].
    destruct (String.eqb (_aiProvider this) "anthropic"); [done|].
    destruct (String.eqb (_aiProvider this) "google"); [done|].
    destruct (String.eqb (_aiProvider this) "deepseek"); [done|].
    destruct (String.eqb (_aiProvider this) "x"); [done|].
    destruct (String.eqb (_aiProvider this) "perplexity"); [done|].
    done.
  - intros Hsupported. destruct (getAIAgent_supported this Hsupported) as [class ->].
    by eexists.
Qed.

(** X21: inputs that [_validateInputs] accepts have a repository, an
    owner, a pull request number, a token and an API key, and [getAIAgent]
    constructs an agent from them with that key and the model. *)
Theorem validateInputs_agent this :
  _validateInputs this = Returns tt →
  _repo this ≠ "" ∧ _owner this ≠ "" ∧ _pullNumber this ≠ 0 ∧
  _githubToken this ≠ "" ∧ _apiKey this ≠ "" ∧
  ∃ class,
    getAIAgent this
    = Returns (mkAgent class (_apiKey this) (_model this) (_reviewRulesContent this)).
Proof.
  unfold _validateInputs.
  destruct (_repo this) as [|? ?] eqn:Hrepo; [done|]. cbn [falsy].
  destruct (_owner this) as [|? ?] eqn:Howner; [done|]. cbn [falsy].
  destruct (Z.eqb_spec (_pullNumber this) 0) as [|Hnumber]; [done|].
  destruct (_githubToken this) as [|? ?] eqn:Htoken; [done|]. cbn [falsy].
  destruct (_aiProvider this) as [|? ?] eqn:Hprovider; [done|]. cbn [falsy].
  destruct (_apiKey this) as [|? ?] eqn:Hkey; [done|]. cbn [falsy].
  destruct (includes supportedProviders _) eqn:Hsupported; [|done].
  intros _. repeat (split; [done|]).
  rewrite <- Hprovider in Hsupported.
  destruct (getAIAgent_supported this Hsupported) as [class Hagent].
  exists class. by rewrite Hagent, Hkey.
Qed.

End Provider.

Lemma validateInputs_agent_witness :
  _repo Samples.validInputs ≠ "" ∧ _owner Samples.validInputs ≠ "" ∧
  _pullNumber Samples.validInputs ≠ 0 ∧
  _githubToken Samples.validInputs ≠ "" ∧ _apiKey Samples.validInputs ≠ "" ∧
  ∃ class,
    getAIAgent Samples.validInputs
    = Returns (mkAgent class (_apiKey Samples.validInputs) (_model Samples.validInputs)
                 (_reviewRulesContent Samples.validInputs)).
Proof. apply (validateInputs_agent Samples.validInputs). reflexivity. Defined.

Lemma sanitizePath_never_climbs_witness :
  ¬ climbs (sanitizePath Samples.sampleNormalize (Some "../..\secret.txt")) ∧
  sanitizePath Samples.sampleNormalize (Some "../..\secret.txt") ≠ "." ∧
  sanitizePath Samples.sampleNormalize None = "".
Proof.
  exact (sanitizePath_never_climbs Samples.sampleNormalize (Some "../..\secret.txt")).
Defined.

Lemma lastReviewComment_most_recent_witness :
  lastReviewComment Scenario.samplePrefix
    ([mkComment (Some (Scenario.samplePrefix +:+ "abc123 " +:+ Scenario.sampleSeparator));
      mkComment (Some "thanks")]
     ++ mkComment (Some (Scenario.samplePrefix +:+ "def456 " +:+ Scenario.sampleSeparator))
        :: [mkComment None])
  = Some (mkComment
            (Some (Scenario.samplePrefix +:+ "def456 " +:+ Scenario.sampleSeparator))).
Proof.
  apply (lastReviewComment_most_recent Scenario.samplePrefix).
  - vm_compute. reflexivity.
  - apply Forall_cons_2; [vm_compute; reflexivity|apply Forall_nil_2].
Defined.

Lemma lastReviewComment_found_witness :
  mkComment (Some (Scenario.samplePrefix +:+ "def456 " +:+ Scenario.sampleSeparator))
    ∈ Samples.twoReviews ∧
  ∃ text,
    body (mkComment
            (Some (Scenario.samplePrefix +:+ "def456 " +:+ Scenario.sampleSeparator)))
    = Some text ∧ text ≠ "" ∧ startsWith text Scenario.samplePrefix = true.
Proof.
  apply (proj1 (lastReviewComment_found Scenario.samplePrefix Samples.twoReviews)).
  vm_compute. reflexivity.
Defined.

(** ** Texts of several hunks, and reconciling twice *)

Section Reconstruction.

Lemma append_assoc (a b c : string) : (a +:+ b) +:+ c = a +:+ (b +:+ c).
Proof.
  induction a as [|x a IH]; [done|].
  change (String x ((a +:+ b) +:+ c) = String x (a +:+ (b +:+ c))).
  by rewrite IH.
Qed.

Lemma join_app (sep : string) (l1 l2 : list string) :
  l1 ≠ [] → l2 ≠ [] →
  join sep (l1 ++ l2) = join sep l1 +:+ sep +:+ join sep l2.
Proof.
  intros H1 H2. induction l1 as [|x l1 IH]; [done|].
  destruct l1 as [|y l1].
  - destruct l2; done.
  - change (join sep ((x :: y :: l1) ++ l2))
      with (x +:+ sep +:+ join sep ((y :: l1) ++ l2)).
    rewrite IH by done.
    change (join sep (x :: y :: l1)) with (x +:+ sep +:+ join sep (y :: l1)).
    by rewrite !append_assoc.
Qed.

(** X22: the text of two non-empty lists of hunks one after the other is
    the two texts joined by one line break. *)
Theorem reconstructPatch_app (first second : list Hunk) :
  first ≠ [] → second ≠ [] →
  reconstructPatch (first ++ second)
  = reconstructPatch first +:+ LF +:+ reconstructPatch second.
Proof.
  intros Hfirst Hsecond. unfold reconstructPatch.
  rewrite map_app. apply join_app; by destruct first, second.
Qed.



End Reconstruction.

Section Idempotence.

Variable parsePatch : option string → result (list ParsedDiff).


End Idempotence.


Lemma reconstructPatch_app_witness :
  reconstructPatch ([Scenario.threeLinesAt3] ++ [Scenario.deletionAt5])
  = reconstructPatch [Scenario.threeLinesAt3] +:+ LF
    +:+ reconstructPatch [Scenario.deletionAt5].
Proof.
  apply (reconstructPatch_app [Scenario.threeLinesAt3] [Scenario.deletionAt5]);
    discriminate.
Defined.

(** ** The hunks that the parser yields, and the stand-in for [NaN] starts *)

Section ParsedStarts.

Lemma number_natural (s rest : string) (z : Z) :
  number s = Some (z, rest) → 0 ≤ z.
Proof.
  unfold number. destruct (spanDigits s) as [ds rest'].
  destruct ds as [|c ds]; [done|].
  destruct (NilEmpty.uint_of_string _) as [u|]; [|done]. cbn.
  intros [= <- _]. unfold Z.of_uint. lia.
Qed.

Lemma headerAt_natural (s : string) (oStart nStart : Z) (oCount nCount : option Z) :
  headerAt s = Some (oStart, oCount, nStart, nCount) → 0 ≤ nStart.
Proof.
  unfold headerAt.
  destruct (expect "@@ -" s) as [s1|]; [|done]. cbn [mbind option_bind].
  destruct (number s1) as [[a s2]|]; [|done]. cbn [mbind option_bind].
  destruct (count s2) as [b s3].
  destruct (expect " +" s3) as [s4|]; [|done]. cbn [mbind option_bind].
  destruct (number s4) as [[c s5]|] eqn:Hc; [|done]. cbn [mbind option_bind].
  destruct (count s5) as [d s6].
  destruct (expect " @@" s6) as [s7|]; [|done]. cbn [mbind option_bind].
  intros [= _ _ <- _]. by eapply number_natural.
Qed.

Lemma chunkHeader_natural (line : string) :
  match chunkHeader line with
  | Some (_, _, nStart, _) => 0 ≤ nStart
  | None => True
  end.
Proof.
  induction line as [|c line IH]; cbn [chunkHeader].
  - destruct (headerAt "") as [[[[a b] n] d]|] eqn:H; [|done].
    by eapply headerAt_natural.
  - destruct (headerAt (String c line)) as [[[[a b] n] d]|] eqn:H; [|exact IH].
    by eapply headerAt_natural.
Qed.

Lemma closeHunk_start (h : OpenHunk) : naturalStart h → -1 ≤ newStart (closeHunk h).
Proof.
  unfold naturalStart, closeHunk.
  destruct (groups h) as [[[[a b] n] d]|]; [|done].
  intros Hn. cbn. destruct (default 1 d =? 0); lia.
Qed.

Lemma parseHunks_starts (open : option OpenHunk) (ls : list string) :
  match open with Some h => naturalStart h | None => True end →
  Forall (λ h, -1 ≤ newStart h) (parseHunks open ls).1.
Proof.
  revert open. induction ls as [|line rest IH]; intros open Hopen.
  - destruct open as [h|]; cbn; [|done].
    apply Forall_cons_2; [by apply closeHunk_start|done].
  - assert (Hclosed : Forall (λ h, -1 ≤ newStart h) (closed open)).
    { destruct open as [h|]; cbn; [|done].
      apply Forall_cons_2; [by apply closeHunk_start|done]. }
    assert (Hout : Forall (λ h, -1 ≤ newStart h)
              (if endsHunks line then (closed open, line :: rest)
               else let '(hs, remaining) :=
                      if String.prefix "@@" line
                      then parseHunks (Some (openHunk line)) rest
                      else parseHunks None rest in
                    ((closed open ++ hs)%list, remaining)).1).
    { destruct (endsHunks line); [done|].
      destruct (String.prefix "@@" line).
      - specialize (IH (Some (openHunk line)) (chunkHeader_natural line)).
        destruct (parseHunks _ rest) as [hs remaining]. by apply Forall_app.
      - specialize (IH None I).
        destruct (parseHunks _ rest) as [hs remaining]. by apply Forall_app. }
    cbn [parseHunks]. destruct open as [h|]; [|exact Hout].
    destruct (isBody line rest); [|exact Hout].
    by apply IH.
Qed.

Lemma parseIndexes_starts (rounds : nat) (ls : list string) :
  Forall (λ p, Forall (λ h, -1 ≤ newStart h) (hunks p)) (parseIndexes rounds ls).
Proof.
  revert ls. induction rounds as [|k IH]; intros ls; [done|].
  destruct ls as [|line rest]; [done|].
  cbn [parseIndexes]. unfold parseIndex.
  pose proof (parseHunks_starts None
                (parseFileHeader (parseFileHeader (skipMetadata (line :: rest)))) I)
    as Hhs.
  destruct (parseHunks None _) as [hs remaining].
  apply Forall_cons_2; [done|apply IH].
Qed.

(** A hunk that stands for [NaN] starts overlaps no hunk that the parser
    yields, in either order, as comparisons with [NaN] are all false. *)
Lemma nanHunk_overlaps_no_parsed (text : option string) (patches : list ParsedDiff)
    (p : ParsedDiff) (r : Hunk) (body : list string) :
  Diff.parsePatch text = Ok patches → p ∈ patches → r ∈ hunks p →
  hunksOverlap (nanHunk body) r = false ∧ hunksOverlap r (nanHunk body) = false.
Proof.
  destruct text as [t|]; [|done]. intros [= <-] Hp Hr.
  pose proof (parseIndexes_starts (length (splitLines t)) (splitLines t)) as Hall.
  rewrite Forall_forall in Hall. specialize (Hall p Hp).
  rewrite Forall_forall in Hall. specialize (Hall r Hr).
  split; apply not_true_is_false; rewrite hunksOverlap_iff; cbn; lia.
Qed.

End ParsedStarts.
